(** * brainrot_generator: text-to-video pipeline of [main.py]

    A shallow embedding of the pure parts of [main.py] and the properties
    of its sanitizer ([filter_text]), subtitle pacer
    ([generate_subtitle_timestamps]), background selector
    ([pick_random_video]) and composer ([create_video_with_subtitles]).

    Conventions of the embedding:
    - a Python [str] is a [string] whose characters are code points below
      256; [str.split] and [str.lower] are transcribed for that range;
    - a Python [float] is a binary64 number, Rocq's primitive [float];
    - [print], [exit] and the hand-over to the encoder are recorded in a
      trace of events next to the outcome of a call. *)

From Stdlib Require Import ZArith Ascii String Floats Lia.
From stdpp Require Import gmap strings list.

(** ** Python strings *)

Module Str.

(** [str.isspace] on one character: the Unicode white space below 256,
    that is TAB..CR, FS..US, SPACE, NEL (0x85) and NBSP (0xA0). *)
Definition isspace (c : ascii) : bool :=
  let n := N_of_ascii c in
  ((9 <=? n) && (n <=? 13) || (28 <=? n) && (n <=? 32)
   || (n =? 133) || (n =? 160))%N.

(** [str.lower] on one character: A..Z and the Latin-1 capitals
    (0xC0..0xDE except the multiplication sign 0xD7) move up by 32.
    The code points from 256 on are outside the model; among them only
    U+212A (KELVIN SIGN) lower-cases to an ASCII letter. *)
Definition lower_char (c : ascii) : ascii :=
  let n := N_of_ascii c in
  if ((65 <=? n) && (n <=? 90) || (192 <=? n) && (n <=? 214)
      || (216 <=? n) && (n <=? 222))%N
  then ascii_of_N (n + 32) else c.

Fixpoint lower (s : string) : string :=
  match s with
  | "" => ""
  | String c s' => String (lower_char c) (lower s')
  end.

(** [text.split()]: maximal runs of non-space characters, in order.
    [cur] is the word being read. *)
Fixpoint split_from (cur s : string) : list string :=
  match s with
  | "" => match cur with "" => [] | _ => [cur] end
  | String c s' =>
      if isspace c
      then match cur with
           | "" => split_from "" s'
           | _ => cur :: split_from "" s'
           end
      else split_from (cur +:+ String c "") s'
  end.

Definition split (s : string) : list string := split_from "" s.

(** [sep.join(ws)] *)
Fixpoint join (sep : string) (ws : list string) : string :=
  match ws with
  | [] => ""
  | [w] => w
  | w :: ws' => w +:+ sep +:+ join sep ws'
  end.

(** [nospace s]: no character of [s] is white space. *)
Fixpoint nospace (s : string) : bool :=
  match s with
  | "" => true
  | String c s' => negb (isspace c) && nospace s'
  end.

(** A token: what [split] produces. *)
Definition token (w : string) : bool :=
  negb (String.eqb w "") && nospace w.

End Str.

(** ** Text Sanitizer *)

(** Custom replacements for bad words, in the order of the dict literal. *)
Definition replacement_items : list (string * string) :=
  [ ("damn", "darn"); ("hell", "heck"); ("shit", "poop"); ("fuck", "fudge");
    ("bitch", "witch"); ("whore", "witch"); ("asshole", "meanie");
    ("bastard", "rascal") ].

Definition FAMILY_FRIENDLY_REPLACEMENTS : gmap string string :=
  list_to_map replacement_items.

(** One element of the list comprehension of [filter_text]:
    [D.get(k, word) if k not in D else D[k]] with [k = word.lower()]. *)
Definition replace_word (word : string) : string :=
  let k := Str.lower word in
  match FAMILY_FRIENDLY_REPLACEMENTS !! k with
  | None => default word (FAMILY_FRIENDLY_REPLACEMENTS !! k)
  | Some v => v
  end.

(** [filter_text].  The call [profanity.load_censor_words()] only fills a
    word list of the [better_profanity] package that nothing here reads. *)
Definition filter_text (text : string) : string :=
  let words := Str.split text in
  let filtered_words := replace_word <$> words in
  Str.join " " filtered_words.

(** What the proofs need of the table: every replacement is a token and
    is itself not a (lower-cased) key. *)
Definition replacement_ok (v : string) : Prop :=
  Str.token v = true /\ FAMILY_FRIENDLY_REPLACEMENTS !! Str.lower v = None.

(** ** Python numbers *)

(** [float(i)] for a list index or length [i].  A Python list has fewer
    than [sys.maxsize = 2^63 - 1] elements, and on that range the 63-bit
    conversion is the correctly rounded one that Python performs. *)
Definition float_of_nat (i : nat) : float :=
  of_uint63 (Uint63.of_Z (Z.of_nat i)).

(** The builtin [min(a, b)]: the first argument unless the second is
    strictly smaller. *)
Definition pymin (a b : float) : float := if (b <? a)%float then b else a.

(** Classes of binary64 values, read on their [spec_float] form: not
    below zero (and not NaN), above zero, and either zero. *)
Definition SF_nonneg (x : spec_float) : bool :=
  match x with
  | S754_zero false | S754_finite false _ _ | S754_infinity false => true
  | _ => false
  end.

Definition SF_positive (x : spec_float) : bool :=
  match x with
  | S754_finite false _ _ | S754_infinity false => true
  | _ => false
  end.

Definition SF_is_zero (x : spec_float) : bool :=
  match x with S754_zero _ => true | _ => false end.

Definition nonneg (x : float) : Prop := SF_nonneg (Prim2SF x) = true.
Definition positive_float (x : float) : Prop := SF_positive (Prim2SF x) = true.
Definition zero_float (x : float) : Prop := SF_is_zero (Prim2SF x) = true.

(** Python's [==] on floats. *)
Notation "x == y" := (PrimFloat.eqb x y = true)
  (at level 70, no associativity) : float_scope.

(** [range(start, stop, step)] for a positive [step]. *)
Definition py_range (start stop step : nat) : list nat :=
  (fun j => start + j * step) <$> seq 0 ((stop - start + step - 1) / step).

(** The slice [l[i:j]] for indices [0 <= i <= j]. *)
Definition py_slice {A : Type} (l : list A) (i j : nat) : list A :=
  take (j - i) (drop i l).

(** ** Clips of the [moviepy] package

    Only what [main.py] sets or reads is kept.  Pixel data and decoding
    stay outside: a decoded clip is its size and duration. *)

Record video_clip := VideoClip {
  video_source : string;          (* the file it was read from *)
  video_size : Z * Z;             (* (width, height) *)
  video_duration : float
}.

Record audio_clip := AudioClip {
  audio_source : string;
  audio_duration_of : float
}.

Record text_clip := TextClip {
  txt : string;
  font : string;
  fontsize : Z;
  color : string;
  stroke_color : string;
  stroke_width : Z;
  align : string;
  method : string;
  txt_size : Z * option Z;        (* size=(width, None) *)
  txt_position : string * string;
  txt_start : float;
  txt_duration : float;
  txt_fadein : float;
  txt_fadeout : float
}.

Inductive clip :=
| VideoLayer (v : video_clip)
| TextLayer (t : text_clip).

Record composite_clip := CompositeVideoClip {
  clips : list clip;              (* bottom to top *)
  comp_audio : option audio_clip
}.

Definition set_audio (c : composite_clip) (a : audio_clip) : composite_clip :=
  {| clips := clips c; comp_audio := Some a |}.

Record render_job := RenderJob {
  job_clip : composite_clip;
  job_filename : string;
  job_codec : string;
  job_fps : Z
}.

Module MoviePy.

(** [int(x)] for a float [x] given in half units ([x = x2 / 2]): Python
    truncates towards zero.  The positions that [crop] computes here
    are sums of halves of small integers, which binary64 holds exactly,
    so integer arithmetic on the doubled values is the same
    computation. *)
Definition int_of_halves (x2 : Z) : Z := Z.quot x2 2.

(** An index of a [numpy] slice over an axis of length [n]: a negative
    index counts from the end, and both ends are clamped. *)
Definition slice_bound (n i : Z) : Z :=
  if (i <? 0)%Z then Z.max 0 (i + n) else Z.min i n.

(** Length of [a[i:j]] for an axis of length [n]. *)
Definition slice_len (n i j : Z) : Z :=
  Z.max 0 (slice_bound n j - slice_bound n i).

(** [clip.resize(height=h')] of moviepy 1.0 ([video/fx/resize.py]):
    [newsize = [w * h' / h, h']], and the resizer takes [int] of both.
    The resizer raises [ValueError] on a frame whose new width is 0;
    the model goes on with a frame of no columns there, so what is said
    of the sizes holds of the code for a scaled width of at least 1. *)
Definition resize_height (v : video_clip) (height : Z) : video_clip :=
  let '(w, h) := video_size v in
  {| video_source := video_source v;
     video_size := ((w * height) / h, height)%Z;
     video_duration := video_duration v |}.

(** [clip.crop(x_center=xc, y_center=yc, width=wd, height=ht)] of
    moviepy 1.0 ([video/fx/crop.py]):
<<
    if x_center: x1, x2 = x_center - width / 2, x_center + width / 2
    if y_center: y1, y2 = y_center - height / 2, y_center + height / 2
    x1 = x1 or 0;  y1 = y1 or 0
    x2 = x2 or clip.size[0];  y2 = y2 or clip.size[1]
    pic[int(y1) : int(y2), int(x1) : int(x2)]
>>
    The size of the new clip is the shape of the sliced frame.  One axis
    at a time, with the centre given doubled ([centre2 = 2 * x_center]),
    so that [lo2] and [hi2] are [2 * x1] and [2 * x2]. *)
Definition crop_axis (n centre2 extent : Z) : Z :=
  let '(lo2, hi2) :=
    if (centre2 =? 0)%Z then (0, 0)%Z
    else (centre2 - extent, centre2 + extent)%Z in
  let hi2 := if (hi2 =? 0)%Z then (2 * n)%Z else hi2 in
  slice_len n (int_of_halves lo2) (int_of_halves hi2).

Definition crop (v : video_clip) (x_center2 y_center2 width height : Z)
  : video_clip :=
  let '(w, h) := video_size v in
  {| video_source := video_source v;
     video_size := (crop_axis w x_center2 width,
                    crop_axis h y_center2 height);
     video_duration := video_duration v |}.

Definition set_duration (v : video_clip) (d : float) : video_clip :=
  {| video_source := video_source v;
     video_size := video_size v;
     video_duration := d |}.

End MoviePy.

(** ** Effects: what a call prints, writes and how it ends *)

Inductive event :=
| Print (line : string)
| WriteVideofile (job : render_job).

Inductive outcome (A : Type) :=
| Returned (a : A)
| Exited (status : Z)             (* [exit(status)] *)
| Raised (exc : string).          (* an uncaught exception *)
Arguments Returned {A} a.
Arguments Exited {A} status.
Arguments Raised {A} exc.

Definition Py (A : Type) : Type := list event * outcome A.

#[global] Instance Py_ret : MRet Py := fun A a => ([], Returned a).

#[global] Instance Py_bind : MBind Py := fun A B k m =>
  match m with
  | (t, Returned a) => let '(t', r) := k a in (t ++ t', r)
  | (t, Exited st) => (t, Exited st)
  | (t, Raised e) => (t, Raised e)
  end.

Definition print (line : string) : Py unit := ([Print line], Returned tt).
Definition exit {A} (status : Z) : Py A := ([], Exited status).
Definition raise {A} (exc : string) : Py A := ([], Raised exc).
(** The hand-over to the encoder.  Decoding, text rendering and encoding
    are the work of [moviepy] and its tools; they are taken to succeed,
    an exception of theirs would go up to the caller of [main]. *)
Definition write_videofile (job : render_job) : Py unit :=
  ([WriteVideofile job], Returned tt).

(** A call fails when it does not return. *)
Definition failed {A} (m : Py A) : Prop :=
  match m.2 with Returned _ => False | _ => True end.

(** ** Background Selector *)

Module Glob.

(** [fnmatch] for patterns made of literal characters, [?] and [*],
    case-sensitive as on POSIX. *)
Fixpoint fnmatch (pat : string) : string -> bool :=
  match pat with
  | "" => fun name => match name with "" => true | _ => false end
  | String "*"%char pat' =>
      fix star (name : string) : bool :=
        fnmatch pat' name ||
        match name with "" => false | String _ name' => star name' end
  | String "?"%char pat' =>
      fun name =>
        match name with "" => false | String _ name' => fnmatch pat' name' end
  | String c pat' =>
      fun name =>
        match name with
        | "" => false
        | String d name' => Ascii.eqb c d && fnmatch pat' name'
        end
  end.

(** [folder.glob(pattern)], a folder being the names of its entries. *)
Definition glob (folder : list string) (pattern : string) : list string :=
  filter (fun name => fnmatch pattern name = true) folder.

End Glob.

(** [name] ends with [suffix]. *)
Fixpoint ends_with (suffix name : string) : bool :=
  String.eqb suffix name ||
  match name with "" => false | String _ name' => ends_with suffix name' end.

Section Selector.

(** The random source: [randbelow n] is the index that
    [random.choice] draws for a sequence of length [n]. *)
Variable randbelow : nat -> nat.

(** [random.choice(seq)] is [seq[randbelow(len(seq))]]. *)
Definition random_choice {A} (seq : list A) : Py A :=
  match seq !! randbelow (length seq) with
  | Some x => mret x
  | None => raise "IndexError"
  end.

Definition pick_random_video (folder : list string) : Py string :=
  let video_files := Glob.glob folder "*.mp4" in
  match video_files with
  | [] => print "No videos found in background folder!";; exit 1
  | _ => random_choice video_files
  end.

End Selector.

(** ** Subtitle Pacer *)

Record segment := Segment {
  text : string;
  start_time : float;
  end_time : float
}.

(** [[words[i:i+2] for i in range(0, len(words), 2)]] *)
Definition word_groups (words : list string) : list (list string) :=
  (fun i => py_slice words i (i + 2)) <$> py_range 0 (length words) 2.

Definition generate_subtitle_timestamps (text : string) (audio_duration : float)
  : Py (list segment) :=
  let words := Str.split text in
  match words with
  | [] => print "Error: Input text is empty.";; mret []
  | _ =>
      let word_groups := word_groups words in
      let segment_duration :=
        (audio_duration / float_of_nat (length word_groups))%float in
      mret (imap (fun i group =>
                   {| text := Str.join " " group;
                      start_time := (float_of_nat i * segment_duration)%float;
                      end_time :=
                        pymin (float_of_nat (i + 1) * segment_duration)%float
                              audio_duration |})
                word_groups)
  end.

(** [ceil(n / 2)], the number of chunks of [n] words. *)
Definition chunk_count (n : nat) : nat := (n + 1) / 2.

(** The segments start at 0, each ends where the next starts, and the
    last one ends at [audio_duration]; with Python's [==]. *)
Definition exact_cover (segs : list segment) (audio_duration : float) : Prop :=
  (forall seg, segs !! 0 = Some seg -> (start_time seg == 0)%float) /\
  (forall i a b, segs !! i = Some a -> segs !! S i = Some b ->
                 (end_time a == start_time b)%float) /\
  (forall seg, last segs = Some seg -> (end_time seg == audio_duration)%float).

(** ** Frame Transformer and Composer *)

Section Composer.

(** Decoding is done by [moviepy]: the two constructors are taken as
    given. *)
Variable VideoFileClip : string -> video_clip.
Variable AudioFileClip : string -> audio_clip.

(** Lines 135-138 of [create_video_with_subtitles].  The centres
    [video.size[0] / 2] and [video.size[1] / 2] are passed doubled. *)
Definition transform (video : video_clip) (duration : float) : video_clip :=
  let video := MoviePy.set_duration video duration in
  let '(target_width, target_height) := (1080, 1920)%Z in
  let video := MoviePy.resize_height video target_height in
  MoviePy.crop video (fst (video_size video)) (snd (video_size video))
    target_width target_height.

(** The body of the loop over [subtitle_parts]. *)
Definition subtitle_clip (video : video_clip) (subtitle : segment) : text_clip :=
  {| txt := text subtitle; font := "Verdana"; fontsize := 100;
     color := "white"; stroke_color := "black"; stroke_width := 2;
     align := "center"; method := "caption";
     txt_size := (fst (video_size video), None);
     txt_position := ("center", "center");
     txt_start := start_time subtitle;
     txt_duration := (end_time subtitle - start_time subtitle)%float;
     txt_fadein := 0%float; txt_fadeout := 0%float |}.

(** Line 151: the layers and the audio of the final clip. *)
Definition compose (video : video_clip) (audio : audio_clip)
    (subtitle_parts : list segment) : composite_clip :=
  let subtitle_clips := TextLayer ∘ subtitle_clip video <$> subtitle_parts in
  set_audio {| clips := [VideoLayer video] ++ subtitle_clips;
               comp_audio := None |} audio.

Definition create_video_with_subtitles
    (audio_file video_file output_file text : string) : Py unit :=
  let video := VideoFileClip video_file in
  let audio := AudioFileClip audio_file in
  let video := transform video (audio_duration_of audio) in
  subtitle_parts ←
    generate_subtitle_timestamps text (audio_duration_of audio);
  let final_video := compose video audio subtitle_parts in
  write_videofile {| job_clip := final_video; job_filename := output_file;
                     job_codec := "libx264"; job_fps := 60 |};;
  print ("Output saved: " +:+ output_file).

End Composer.

(** ** Reading the input text *)

(** [str.strip()]: the string without its leading and trailing white
    space. *)
Fixpoint lstrip (s : string) : string :=
  match s with
  | "" => ""
  | String c s' => if Str.isspace c then lstrip s' else s
  end.

Fixpoint rstrip (s : string) : string :=
  match s with
  | "" => ""
  | String c s' =>
      match rstrip s' with
      | "" => if Str.isspace c then "" else String c ""
      | r => String c r
      end
  end.

Definition strip (s : string) : string := rstrip (lstrip s).

(** What [open(path, "r", encoding="utf-8")] followed by [read()] finds
    at a path: a text file with its content, or something that the two
    calls raise on, with the class of the exception (a directory:
    [IsADirectoryError]; a file that may not be read: [PermissionError];
    bytes that are not UTF-8: [UnicodeDecodeError]). *)
Inductive file_state :=
| TextFile (content : string)
| Unreadable (exc : string).

(** The file system is a map from paths to what is there; on a path
    outside the map [open] raises [FileNotFoundError]. *)
Definition read_text (fs : gmap string file_state) (file : string)
  : outcome string :=
  match fs !! file with
  | Some (TextFile content) => Returned content
  | Some (Unreadable exc) => Raised exc
  | None => Raised "FileNotFoundError"
  end.

(** [get_input_text]: the handler catches [FileNotFoundError] only, any
    other exception of the [try] block goes up to the caller. *)
Definition get_input_text (fs : gmap string file_state) (input_file : string)
  : Py string :=
  text ← match read_text fs input_file with
         | Returned content => mret (strip content)
         | Raised exc =>
             if String.eqb exc "FileNotFoundError"
             then print ("Error: Input file '" +:+ input_file +:+
                         "' not found.");;
                  exit 1
             else raise exc
         | Exited status => exit status
         end;
  let text := filter_text text in
  mret text.

(** No white space but single spaces between words: [prev] tells
    whether the previous character was a space (or the start). *)
Fixpoint single_spaced_from (prev : bool) (s : string) : bool :=
  match s with
  | "" => negb prev
  | String c s' =>
      if Str.isspace c
      then Ascii.eqb c " " && negb prev && single_spaced_from true s'
      else single_spaced_from false s'
  end.

Definition single_spaced (s : string) : bool :=
  match s with "" => true | _ => single_spaced_from true s end.

(** An ASCII letter. *)
Definition is_letter (c : ascii) : bool :=
  let n := N_of_ascii c in
  ((65 <=? n) && (n <=? 90) || (97 <=? n) && (n <=? 122))%N.

(** Some character of [s] is ASCII and not a letter. *)
Fixpoint has_ascii_nonletter (s : string) : bool :=
  match s with
  | "" => false
  | String c s' =>
      (N_of_ascii c <? 128)%N && negb (is_letter c) || has_ascii_nonletter s'
  end.

(** ** Configuration *)

(** The Python values that the configuration handles: what [json.load]
    produces, and [None]. *)
#[warnings="-register-all"]
Inductive pyvalue :=
| PyNone
| PyBool (b : bool)
| PyInt (z : Z)
| PyFloat (f : float)
| PyStr (s : string)
| PyList (l : list pyvalue)
| PyDict (items : gmap string pyvalue).

Definition is_None (v : pyvalue) : bool :=
  match v with PyNone => true | _ => false end.

Definition CONFIG_FILE : string := "assets/config.json".

(** [load_config].  Parsing is done by the [json] package: the
    configuration file is given by the value it parses to, [None] when
    the file does not exist. *)
Definition load_config (config_file : option pyvalue) : pyvalue :=
  match config_file with
  | Some parsed => parsed
  | None => PyDict ∅
  end.

(** [getattr(args, key, None)] on an [argparse.Namespace], given by its
    attributes. *)
Definition getattr (args : gmap string pyvalue) (key : string) : pyvalue :=
  default PyNone (args !! key).

(** [config.get(key)]: only a dict has the method. *)
Definition config_get (config : pyvalue) (key : string) : Py pyvalue :=
  match config with
  | PyDict items => mret (default PyNone (items !! key))
  | _ => raise "AttributeError"
  end.

Definition get_config_value (args : gmap string pyvalue) (config : pyvalue)
    (key : string) (required : bool) : Py pyvalue :=
  let value := getattr args key in
  value ← (if is_None value then config_get config key else mret value);
  if required && is_None value
  then print ("Error: Missing required parameter '" +:+ key +:+
              "'. Provide it via CLI or " +:+ CONFIG_FILE +:+ ".");;
       exit 1
  else mret value.

(** The options that [main] declares with [parser.add_argument]. *)
Definition option_strings : list string :=
  [ "--elevenlabs-api-key"; "--voice-id"; "--background-folder";
    "--input"; "--output" ].

(** The attribute that [argparse] stores an option under: the option
    string without its leading dashes, the other dashes replaced by
    underscores. *)
Fixpoint lstrip_dashes (s : string) : string :=
  match s with
  | String "-"%char s' => lstrip_dashes s'
  | _ => s
  end.

Fixpoint dashes_to_underscores (s : string) : string :=
  match s with
  | "" => ""
  | String c s' =>
      String (if Ascii.eqb c "-" then "_"%char else c) (dashes_to_underscores s')
  end.

Definition dest (option_string : string) : string :=
  dashes_to_underscores (lstrip_dashes option_string).

(** The namespace that [parser.parse_args()] returns when the command
    line gives the values [given] (by option string): one attribute per
    declared option, [None] for an option that is not given. *)
Definition parse_args (given : gmap string string) : gmap string pyvalue :=
  list_to_map
    ((fun o => (dest o, from_option PyStr PyNone (given !! o))) <$> option_strings).

(** The keys that [main] asks for, in order. *)
Definition parameter_keys : list string :=
  [ "elevenlabs-api-key"; "voice-id"; "background-folder"; "input"; "output" ].

(** Lines 158-174 of [main]: the configuration, the command line and the
    five required parameters. *)
Definition main_parameters (config_file : option pyvalue)
    (given : gmap string string)
  : Py (pyvalue * pyvalue * pyvalue * pyvalue * pyvalue) :=
  let config := load_config config_file in
  let args := parse_args given in
  api_key ← get_config_value args config "elevenlabs-api-key" true;
  voice_id ← get_config_value args config "voice-id" true;
  background_folder ← get_config_value args config "background-folder" true;
  input_file ← get_config_value args config "input" true;
  output_file ← get_config_value args config "output" true;
  mret (api_key, voice_id, background_folder, input_file, output_file).

(** What [get_config_value] finds for [key]: the attribute of the
    namespace unless it is [None], else the entry of the dict. *)
Definition found_value (args items : gmap string pyvalue) (key : string)
  : pyvalue :=
  let value := getattr args key in
  if is_None value then default PyNone (items !! key) else value.

Definition missing_parameter_message (key : string) : string :=
  "Error: Missing required parameter '" +:+ key +:+
  "'. Provide it via CLI or " +:+ CONFIG_FILE +:+ ".".

Fixpoint has_dash (s : string) : bool :=
  match s with
  | "" => false
  | String c s' => Ascii.eqb c "-" || has_dash s'
  end.

(** ** Speech synthesis *)

Record voice_settings := VoiceSettings {
  stability : float;
  similarity_boost : float;
  style : float;
  use_speaker_boost : bool
}.

Record tts_request := TtsRequest {
  tts_api_key : string;
  tts_text : string;
  tts_voice_id : string;
  tts_model_id : string;
  tts_output_format : string;
  tts_voice_settings : voice_settings
}.

Section Speech.

(** [client.text_to_speech.convert(...)] of the ElevenLabs client: the
    chunks of bytes that the service streams back. *)
Variable convert : tts_request -> list (list Byte.byte).

(** The loop [for chunk in audio: if chunk: f.write(chunk)]. *)
Definition write_chunks (audio : list (list Byte.byte)) : list Byte.byte :=
  foldl (fun written chunk =>
           match chunk with [] => written | _ => written ++ chunk end)
        [] audio.

(** [generate_speech], the binary files given by a map from their paths
    to their contents. *)
Definition generate_speech (files : gmap string (list Byte.byte))
    (api_key_ text_ output_audio voice_id_ : string)
  : gmap string (list Byte.byte) * Py unit :=
  let audio :=
    convert {| tts_api_key := api_key_; tts_text := text_;
               tts_voice_id := voice_id_;
               tts_model_id := "eleven_multilingual_v2";
               tts_output_format := "mp3_44100_128";
               tts_voice_settings :=
                 {| stability := 0; similarity_boost := 1; style := 0;
                    use_speaker_boost := true |} |} in
  (<[output_audio := write_chunks audio]> files,
   print ("Audio saved: " +:+ output_audio)).

End Speech.

(** ** The program *)

Definition lift {A} (o : outcome A) : Py A := ([], o).

Definition is_write (e : event) : bool :=
  match e with WriteVideofile _ => true | Print _ => false end.

(** A trace without a hand-over to the encoder. *)
Definition prints_only (t : list event) : Prop :=
  Forall (fun e => is_write e = false) t.

Section Main.

(** [pathlib] and the file system are taken as given: paths with their
    [str], [suffix], [with_suffix] (which raises on a path without a
    name), the creation of the parent directory, the names of the
    entries of a folder, and the text files by path. *)
Variable path : Type.
Variable Path : string -> path.
Variable path_str : path -> string.
Variable path_suffix : path -> string.
Variable with_suffix : path -> string -> outcome path.
Variable mkdir_parent : path -> outcome unit.
Variable entries : path -> list string.
Variable child : path -> string -> path.
Variable fs : gmap string file_state.
Variable randbelow : nat -> nat.
Variable VideoFileClip : string -> video_clip.
Variable AudioFileClip : string -> audio_clip.

(** [pathlib.Path(value)] accepts a string. *)
Definition as_path (value : pyvalue) : Py path :=
  match value with
  | PyStr s => mret (Path s)
  | _ => raise "TypeError"
  end.

(** [main] for the values [given] on the command line.  The call of
    [generate_speech] is commented out in the source. *)
Definition main (config_file : option pyvalue) (given : gmap string string)
  : Py unit :=
  parameters ← main_parameters config_file given;
  let '(api_key, voice_id, background_folder, input_file, output_file) :=
    parameters in
  output_path ← as_path output_file;
  output_path ← (match path_suffix output_path with
                 | "" => lift (with_suffix output_path ".mp4")
                 | _ => mret output_path
                 end);
  lift (mkdir_parent output_path);;
  input_path ← as_path input_file;
  text ← get_input_text fs (path_str input_path);
  audio_path ← lift (with_suffix output_path ".mp3");
  folder ← as_path background_folder;
  name ← pick_random_video randbelow (entries folder);
  let background_video := child folder name in
  create_video_with_subtitles VideoFileClip AudioFileClip
    (path_str audio_path) (path_str background_video) (path_str output_path)
    text.

End Main.

(** * Properties *)

(** *** Splitting and joining *)

Lemma app_cons (c : ascii) (s t : string) :
  String c s +:+ t = String c (s +:+ t).
Proof. reflexivity. Qed.

Lemma app_empty_r (s : string) : s +:+ "" = s.
Proof. induction s as [|c s IH]; [done|]. by rewrite app_cons, IH. Qed.

Lemma app_assoc_str (a b c : string) : (a +:+ b) +:+ c = a +:+ (b +:+ c).
Proof. induction a as [|x a IH]; [done|]. by rewrite !app_cons, IH. Qed.

Lemma nospace_app (a b : string) :
  Str.nospace (a +:+ b) = Str.nospace a && Str.nospace b.
Proof.
  induction a as [|x a IH]; [done|].
  rewrite app_cons. simpl. rewrite IH. by rewrite andb_assoc.
Qed.

Lemma token_spec (w : string) :
  Str.token w = true <-> w <> "" /\ Str.nospace w = true.
Proof.
  unfold Str.token. rewrite andb_true_iff, negb_true_iff.
  split; intros [H1 H2]; split; try done.
  - intros ->. done.
  - by apply String.eqb_neq.
Qed.

(** Every word produced by [split] is a token. *)
Lemma split_from_tokens (s cur : string) :
  Str.nospace cur = true ->
  Forall (fun w => Str.token w = true) (Str.split_from cur s).
Proof.
  revert cur. induction s as [|c s IH]; intros cur Hcur; simpl.
  - destruct cur as [|x cur]; [constructor|].
    constructor; [|constructor]. by apply token_spec.
  - destruct (Str.isspace c) eqn:Hc.
    + destruct cur as [|x cur]; [by apply IH|].
      constructor; [by apply token_spec | by apply IH].
    + apply IH. rewrite nospace_app, Hcur. simpl. by rewrite Hc.
Qed.

Lemma split_tokens (s : string) :
  Forall (fun w => Str.token w = true) (Str.split s).
Proof. by apply split_from_tokens. Qed.

(** Reading a space-free string extends the current word. *)
Lemma split_from_app (w s cur : string) :
  Str.nospace w = true ->
  Str.split_from cur (w +:+ s) = Str.split_from (cur +:+ w) s.
Proof.
  revert cur. induction w as [|c w IH]; intros cur Hw.
  - by rewrite app_empty_r.
  - simpl in Hw. apply andb_true_iff in Hw as [Hc Hw].
    apply negb_true_iff in Hc.
    rewrite app_cons. simpl. rewrite Hc, IH by done.
    by rewrite app_assoc_str.
Qed.

Lemma split_join (ws : list string) :
  Forall (fun w => Str.token w = true) ws ->
  Str.split (Str.join " " ws) = ws.
Proof.
  unfold Str.split. induction 1 as [|w ws Hw Hws IH]; [done|].
  apply token_spec in Hw as [Hne Hsp].
  destruct ws as [|w' ws].
  - simpl. rewrite <- (app_empty_r w) at 1.
    rewrite split_from_app by done. simpl. by destruct w.
  - change (Str.join " " (w :: w' :: ws))
      with (w +:+ " " +:+ Str.join " " (w' :: ws)).
    rewrite split_from_app by done.
    change (" " +:+ Str.join " " (w' :: ws))
      with (String " "%char (Str.join " " (w' :: ws))).
    cbn [Str.split_from]. change (Str.isspace " "%char) with true. cbn iota.
    rewrite IH. simpl. by destruct w.
Qed.

(** *** The replacement table *)

Lemma replacement_items_ok :
  Forall (fun kv => replacement_ok kv.2) replacement_items.
Proof. repeat constructor; vm_compute; reflexivity. Qed.

Lemma lookup_replacement (k v : string) :
  FAMILY_FRIENDLY_REPLACEMENTS !! k = Some v -> replacement_ok v.
Proof.
  intros H. apply elem_of_list_to_map_2 in H.
  pose proof replacement_items_ok as Hall.
  rewrite Forall_forall in Hall. exact (Hall (k, v) H).
Qed.

Lemma replace_word_unmatched (w : string) :
  FAMILY_FRIENDLY_REPLACEMENTS !! Str.lower w = None -> replace_word w = w.
Proof. unfold replace_word. by intros ->. Qed.

Lemma replace_word_matched (w v : string) :
  FAMILY_FRIENDLY_REPLACEMENTS !! Str.lower w = Some v -> replace_word w = v.
Proof. unfold replace_word. by intros ->. Qed.

Lemma replace_word_token (w : string) :
  Str.token w = true -> Str.token (replace_word w) = true.
Proof.
  intros Hw. unfold replace_word.
  destruct (FAMILY_FRIENDLY_REPLACEMENTS !! Str.lower w) as [v|] eqn:E;
    [|done].
  by destruct (lookup_replacement _ _ E).
Qed.

Lemma replace_word_idem (w : string) :
  replace_word (replace_word w) = replace_word w.
Proof.
  destruct (FAMILY_FRIENDLY_REPLACEMENTS !! Str.lower w) as [v|] eqn:E.
  - rewrite (replace_word_matched _ _ E).
    destruct (lookup_replacement _ _ E) as [_ Hv].
    by apply replace_word_unmatched.
  - by rewrite !(replace_word_unmatched _ E).
Qed.

Lemma split_filter_text (x : string) :
  Str.split (filter_text x) = replace_word <$> Str.split x.
Proof.
  unfold filter_text. apply split_join.
  apply Forall_fmap. eapply Forall_impl; [apply split_tokens|].
  intros w Hw. by apply replace_word_token.
Qed.

(** C6. The sanitizer is idempotent: filtering an already filtered text
    changes nothing, [filter_text (filter_text x) = filter_text x] for
    every input string [x]. *)
Theorem filter_text_idempotent (x : string) :
  filter_text (filter_text x) = filter_text x.
Proof.
  unfold filter_text at 1. rewrite split_filter_text.
  unfold filter_text. f_equal.
  rewrite <- list_fmap_compose. apply list_fmap_ext.
  intros i w _. apply replace_word_idem.
Qed.

(** C7. The sanitizer keeps the white-space tokens apart: the output has
    exactly as many tokens as the input, and a token whose lower-case form
    is not a key of the replacement table is found unchanged at the same
    position of the output. *)
Theorem filter_text_preserves_tokens (x : string) :
  length (Str.split (filter_text x)) = length (Str.split x) /\
  (forall (i : nat) (w : string),
      Str.split x !! i = Some w ->
      FAMILY_FRIENDLY_REPLACEMENTS !! Str.lower w = None ->
      Str.split (filter_text x) !! i = Some w).
Proof.
  rewrite split_filter_text. split.
  - apply length_fmap.
  - intros i w Hi Hw. rewrite list_lookup_fmap, Hi. simpl.
    by rewrite replace_word_unmatched.
Qed.

Lemma filter_text_preserves_tokens_witness :
  length (Str.split (filter_text "What the HELL")) = 3 /\
  Str.split (filter_text "What the HELL") !! 0 = Some "What".
Proof.
  destruct (filter_text_preserves_tokens "What the HELL") as [Hlen Hpass].
  split; [exact Hlen|]. apply Hpass; reflexivity.
Defined.

(** ** Binary64 arithmetic

    The facts about [float(i)], [/], [*], [min] and the comparisons that
    the pacer relies on, derived from the IEEE 754 specification of the
    primitive operations. *)

Section Binary64.
Local Open Scope Z_scope.

Lemma digits2_pos_log2 (p : positive) :
  Zpos (digits2_pos p) = Z.log2 (Zpos p) + 1.
Proof.
  assert (Hsz : forall q, digits2_pos q = Pos.size q).
  { induction q as [q IH|q IH|]; simpl; congruence. }
  rewrite Hsz. destruct p; simpl; lia.
Qed.

Lemma Zdigits2_bounds (m : Z) :
  0 < m -> 2 ^ (Zdigits2 m - 1) <= m < 2 ^ Zdigits2 m.
Proof.
  intros Hm. destruct m as [|p|p]; try lia.
  unfold Zdigits2. rewrite digits2_pos_log2.
  replace (Z.log2 (Zpos p) + 1 - 1) with (Z.log2 (Zpos p)) by lia.
  pose proof (Z.log2_spec (Zpos p) Hm). unfold Z.succ in *. lia.
Qed.

Lemma Zdigits2_unique (m d : Z) :
  2 ^ (d - 1) <= m < 2 ^ d -> 0 < d -> Zdigits2 m = d.
Proof.
  intros Hb Hd.
  assert (0 < m).
  { assert (0 < 2 ^ (d - 1)) by (apply Z.pow_pos_nonneg; lia). lia. }
  destruct m as [|p|p]; try lia.
  unfold Zdigits2. rewrite digits2_pos_log2.
  rewrite (Z.log2_unique (Zpos p) (d - 1)); [lia|lia|].
  unfold Z.succ. replace (d - 1 + 1) with d by lia. exact Hb.
Qed.

Lemma shr_1_m (mrs : shr_record) :
  0 <= shr_m mrs -> shr_m (shr_1 mrs) = shr_m mrs / 2.
Proof.
  destruct mrs as [m r s]; simpl. intros Hm.
  destruct m as [|[p|p|]|p]; simpl; try lia; try reflexivity.
  - rewrite (Pos2Z.inj_xI p). apply (Z.div_unique _ _ _ 1); lia.
  - rewrite (Pos2Z.inj_xO p). apply (Z.div_unique _ _ _ 0); lia.
Qed.

Lemma shr_iter_m (n : positive) (mrs : shr_record) :
  0 <= shr_m mrs ->
  shr_m (SpecFloat.iter_pos shr_1 n mrs) = shr_m mrs / 2 ^ Zpos n.
Proof.
  revert mrs. induction n as [n IH|n IH|]; intros mrs Hm; simpl SpecFloat.iter_pos.
  - assert (H1 : 0 <= shr_m (shr_1 mrs)).
    { rewrite shr_1_m by assumption. apply Z.div_pos; lia. }
    assert (H2 : 0 <= shr_m (SpecFloat.iter_pos shr_1 n (shr_1 mrs))).
    { rewrite IH by assumption. apply Z.div_pos; [assumption|]. apply Z.pow_pos_nonneg; lia. }
    rewrite IH, IH, shr_1_m by assumption.
    rewrite !Z.div_div by (try apply Z.pow_pos_nonneg; lia).
    f_equal. rewrite (Pos2Z.inj_xI n).
    replace (2 * Zpos n + 1) with (1 + Zpos n + Zpos n) by lia.
    rewrite !Z.pow_add_r by lia. lia.
  - assert (H2 : 0 <= shr_m (SpecFloat.iter_pos shr_1 n mrs)).
    { rewrite IH by assumption. apply Z.div_pos; [assumption|]. apply Z.pow_pos_nonneg; lia. }
    rewrite IH, IH by assumption.
    rewrite !Z.div_div by (try apply Z.pow_pos_nonneg; lia).
    f_equal. rewrite (Pos2Z.inj_xO n).
    replace (2 * Zpos n) with (Zpos n + Zpos n) by lia.
    rewrite !Z.pow_add_r by lia. lia.
  - rewrite shr_1_m by assumption. reflexivity.
Qed.

Lemma shr_record_of_loc_m (m : Z) (l : location) :
  shr_m (shr_record_of_loc m l) = m.
Proof. destruct l as [|[]]; reflexivity. Qed.

Lemma shr_fexp_spec (m e : Z) (l : location) :
  0 <= m ->
  let n := fexp prec emax (Zdigits2 m + e) - e in
  shr_m (fst (shr_fexp prec emax m e l)) = m / 2 ^ Z.max 0 n /\
  snd (shr_fexp prec emax m e l) = e + Z.max 0 n.
Proof.
  intros Hm n. unfold shr_fexp, shr. fold n.
  destruct n as [|p|p]; simpl fst; simpl snd.
  - rewrite shr_record_of_loc_m. change (2 ^ Z.max 0 0) with 1.
    rewrite Z.div_1_r. lia.
  - rewrite shr_iter_m by (rewrite shr_record_of_loc_m; assumption).
    rewrite shr_record_of_loc_m.
    replace (Z.max 0 (Zpos p)) with (Zpos p) by lia. lia.
  - rewrite shr_record_of_loc_m.
    replace (Z.max 0 (Zneg p)) with 0 by lia. change (2 ^ 0) with 1.
    rewrite Z.div_1_r. lia.
Qed.

Lemma round_nearest_even_bounds (m : Z) (l : location) :
  m <= round_nearest_even m l <= m + 1.
Proof.
  destruct l as [|[]]; simpl; try lia. destruct (Z.even m); lia.
Qed.

(** Dividing by a power of two below the leading digit leaves a positive
    number. *)
Lemma shift_positive (m k : Z) :
  0 < m -> 0 <= k <= Zdigits2 m - 1 -> 1 <= m / 2 ^ k.
Proof.
  intros Hm Hk. pose proof (Zdigits2_bounds m Hm) as [Hlo _].
  assert (2 ^ k <= 2 ^ (Zdigits2 m - 1)) by (apply Z.pow_le_mono_r; lia).
  apply Z.div_le_lower_bound; [apply Z.pow_pos_nonneg; lia | lia].
Qed.

Lemma Zdigits2_pos (m : Z) : 0 < m -> 1 <= Zdigits2 m.
Proof. intros Hm. destruct m; simpl; lia. Qed.

Lemma Zdigits2_le (m d : Z) : 0 < m -> 0 <= d -> m < 2 ^ d -> Zdigits2 m <= d.
Proof.
  intros Hm Hd Hlt. pose proof (Zdigits2_bounds m Hm) as [Hlo _].
  pose proof (Zdigits2_pos m Hm).
  destruct (Z.le_gt_cases (Zdigits2 m) d) as [|Hgt]; [assumption|exfalso].
  assert (2 ^ d <= 2 ^ (Zdigits2 m - 1)) by (apply Z.pow_le_mono_r; lia).
  lia.
Qed.

(** Rounding a positive mantissa that is neither subnormal nor near the
    overflow threshold gives a finite float of the same sign. *)
Lemma binary_round_aux_finite (s : bool) (m e : Z) (l : location) :
  0 < m ->
  emin <= Zdigits2 m + e - prec ->
  e + Z.max 0 (Zdigits2 m - prec) + 1 <= emax - prec ->
  exists m' e', binary_round_aux prec emax s m e l = S754_finite s m' e'.
Proof.
  intros Hm Hmin Hmax. unfold binary_round_aux.
  pose proof (Zdigits2_pos m Hm) as HD.
  pose proof (Zdigits2_bounds m Hm) as [HDlo HDhi].
  destruct (shr_fexp_spec m e l ltac:(lia)) as [Hm1 He1].
  destruct (shr_fexp prec emax m e l) as [mrs1 e1]. simpl in Hm1, He1.
  assert (Hn1 : fexp prec emax (Zdigits2 m + e) - e = Zdigits2 m - prec).
  { unfold fexp, SpecFloat.emin, prec, emax in *. lia. }
  rewrite Hn1 in Hm1, He1.
  set (k1 := Z.max 0 (Zdigits2 m - prec)) in *.
  assert (Hk1 : 0 <= k1 <= Zdigits2 m - 1) by (unfold k1, prec; lia).
  pose proof (shift_positive m k1 Hm Hk1) as Hm1pos. rewrite <- Hm1 in Hm1pos.
  assert (Hm1hi : shr_m mrs1 < 2 ^ (Zdigits2 m - k1)).
  { rewrite Hm1. apply Z.div_lt_upper_bound; [apply Z.pow_pos_nonneg; lia|].
    rewrite <- Z.pow_add_r by lia.
    replace (k1 + (Zdigits2 m - k1)) with (Zdigits2 m) by lia. exact HDhi. }
  pose proof (round_nearest_even_bounds (shr_m mrs1) (loc_of_shr_record mrs1))
    as Hrne.
  set (m2 := round_nearest_even (shr_m mrs1) (loc_of_shr_record mrs1)) in *.
  assert (Hm2 : 0 < m2) by lia.
  assert (HD2 : Zdigits2 m2 <= Zdigits2 m - k1 + 1).
  { apply Zdigits2_le; [lia|lia|].
    rewrite Z.pow_add_r by lia. change (2 ^ 1) with 2. lia. }
  pose proof (Zdigits2_pos m2 Hm2) as HD2pos.
  assert (HD2lo : Zdigits2 m - k1 <= Zdigits2 m2).
  { destruct (Z.le_gt_cases (Zdigits2 m - k1) (Zdigits2 m2)); [assumption|].
    exfalso. pose proof (Zdigits2_bounds m2 Hm2) as [_ Hhi2].
    assert (shr_m mrs1 < 2 ^ (Zdigits2 m - k1 - 1)).
    { assert (2 ^ Zdigits2 m2 <= 2 ^ (Zdigits2 m - k1 - 1))
        by (apply Z.pow_le_mono_r; lia). lia. }
    assert (Hlow : 2 ^ (Zdigits2 m - k1 - 1) <= shr_m mrs1).
    { rewrite Hm1. apply Z.div_le_lower_bound; [apply Z.pow_pos_nonneg; lia|].
      rewrite <- Z.pow_add_r by lia.
      replace (k1 + (Zdigits2 m - k1 - 1)) with (Zdigits2 m - 1) by lia.
      exact HDlo. }
    lia. }
  destruct (shr_fexp_spec m2 e1 loc_Exact ltac:(lia)) as [Hm3 He3].
  destruct (shr_fexp prec emax m2 e1 loc_Exact) as [mrs2 e2].
  simpl in Hm3, He3.
  assert (Hn2 : fexp prec emax (Zdigits2 m2 + e1) - e1 = Zdigits2 m2 - prec).
  { unfold fexp, SpecFloat.emin, prec, emax, k1 in *. lia. }
  rewrite Hn2 in Hm3, He3.
  set (k2 := Z.max 0 (Zdigits2 m2 - prec)) in *.
  assert (Hk2 : 0 <= k2 <= Zdigits2 m2 - 1) by (unfold k2, prec; lia).
  pose proof (shift_positive m2 k2 Hm2 Hk2) as Hm3pos. rewrite <- Hm3 in Hm3pos.
  destruct (shr_m mrs2) as [|m'|m'] eqn:E3; try lia.
  assert (Hle : (e2 <=? emax - prec) = true).
  { apply Z.leb_le. unfold k1, k2, prec, emax in *. lia. }
  rewrite Hle. eauto.
Qed.

Lemma iter_xO_pow (p d : positive) :
  Zpos (Pos.iter xO p d) = Zpos p * 2 ^ Zpos d.
Proof.
  induction d as [|d IH] using Pos.peano_ind.
  - simpl Pos.iter. change (2 ^ 1) with 2. lia.
  - rewrite Pos.iter_succ, Pos2Z.inj_xO, IH, Pos2Z.inj_succ.
    rewrite Z.pow_succ_r by lia. lia.
Qed.

(** A positive integer below [2^1023] rounds to a finite positive float. *)
Lemma binary_normalize_int (z : Z) :
  0 < z < 2 ^ 1023 ->
  exists m e, binary_normalize prec emax z 0 false = S754_finite false m e.
Proof.
  intros [Hz Hhi]. destruct z as [|p|p]; try lia.
  unfold binary_normalize, binary_round, shl_align.
  pose proof (Zdigits2_bounds (Zpos p) Hz) as [HDlo HDhi].
  pose proof (Zdigits2_pos (Zpos p) Hz) as HD.
  pose proof (Zdigits2_le (Zpos p) 1023 Hz ltac:(lia) Hhi) as HD'.
  simpl Zdigits2 in *.
  set (D := Zpos (digits2_pos p)) in *.
  assert (Hf : fexp prec emax (D + 0) = D - prec).
  { unfold fexp, SpecFloat.emin, prec, emax. lia. }
  rewrite Hf.
  destruct (D - prec - 0) as [|d|d] eqn:Ed.
  - apply binary_round_aux_finite; simpl Zdigits2; fold D;
      unfold SpecFloat.emin, prec, emax in *; lia.
  - apply binary_round_aux_finite; simpl Zdigits2; fold D;
      unfold SpecFloat.emin, prec, emax in *; lia.
  - assert (Hdig : Zdigits2 (Zpos (Pos.iter xO p d)) = prec).
    { apply Zdigits2_unique; [|unfold prec; lia].
      rewrite iter_xO_pow.
      assert (Hd : Zpos d = prec - D) by lia.
      assert (E1 : 2 ^ (prec - 1) = 2 ^ (D - 1) * 2 ^ Zpos d).
      { rewrite <- Z.pow_add_r by lia. f_equal. lia. }
      assert (E2 : 2 ^ prec = 2 ^ D * 2 ^ Zpos d).
      { rewrite <- Z.pow_add_r by lia. f_equal. lia. }
      rewrite E1, E2.
      assert (0 < 2 ^ Zpos d) by (apply Z.pow_pos_nonneg; lia).
      split; [apply Z.mul_le_mono_nonneg_r | apply Z.mul_lt_mono_pos_r];
        solve [assumption | lia]. }
    apply binary_round_aux_finite; [reflexivity| |]; rewrite Hdig;
      unfold SpecFloat.emin, prec, emax in *; lia.
Qed.

Lemma binary_round_aux_nonneg (m e : Z) (l : location) :
  0 <= m -> SF_nonneg (binary_round_aux prec emax false m e l) = true.
Proof.
  intros Hm. unfold binary_round_aux.
  destruct (shr_fexp_spec m e l Hm) as [Hm1 _].
  destruct (shr_fexp prec emax m e l) as [mrs1 e1]. simpl in Hm1.
  assert (H1 : 0 <= shr_m mrs1).
  { rewrite Hm1. apply Z.div_pos; [assumption|apply Z.pow_pos_nonneg; lia]. }
  pose proof (round_nearest_even_bounds (shr_m mrs1) (loc_of_shr_record mrs1))
    as Hrne.
  set (m2 := round_nearest_even (shr_m mrs1) (loc_of_shr_record mrs1)) in *.
  destruct (shr_fexp_spec m2 e1 loc_Exact ltac:(lia)) as [Hm3 _].
  destruct (shr_fexp prec emax m2 e1 loc_Exact) as [mrs2 e2]. simpl in Hm3.
  assert (H3 : 0 <= shr_m mrs2).
  { rewrite Hm3. apply Z.div_pos; [lia|apply Z.pow_pos_nonneg; lia]. }
  destruct (shr_m mrs2) as [|m'|m']; try reflexivity; try lia.
  destruct (e2 <=? emax - prec); reflexivity.
Qed.

Lemma SFdiv_nonneg (x : spec_float) (my : positive) (ey : Z) :
  SF_positive x = true ->
  SF_nonneg (SF64div x (S754_finite false my ey)) = true.
Proof.
  destruct x as [[]|[]| |[] mx ex]; try discriminate; intros _;
    try reflexivity.
  unfold SF64div, SFdiv.
  destruct (SFdiv_core_binary prec emax (Zpos mx) ex (Zpos my) ey)
    as [[mz ez] lz] eqn:E.
  apply binary_round_aux_nonneg.
  unfold SFdiv_core_binary in E.
  set (m' := match _ with Zpos _ => _ | Z0 => _ | Zneg _ => _ end) in E.
  assert (Hm' : 0 <= m').
  { subst m'. destruct (_ - _ - _)%Z; try lia. apply Z.shiftl_nonneg. lia. }
  pose proof (Z.div_pos m' (Zpos my) Hm' ltac:(lia)) as Hq.
  unfold Z.div in Hq. destruct (Z.div_eucl m' (Zpos my)) as [q r].
  congruence.
Qed.

Lemma SFmul_nonneg (mx : positive) (ex : Z) (y : spec_float) :
  SF_nonneg y = true ->
  SF_nonneg (SF64mul (S754_finite false mx ex) y) = true.
Proof.
  destruct y as [[]|[]| |[] my ey]; try discriminate; intros _;
    try reflexivity.
  unfold SF64mul, SFmul. apply binary_round_aux_nonneg. lia.
Qed.

Lemma SFcompare_antisym (x y : spec_float) :
  SFcompare y x = option_map CompOpp (SFcompare x y).
Proof.
  destruct x as [[]|[]| |[] mx ex], y as [[]|[]| |[] my ey]; try reflexivity;
    simpl; rewrite (Z.compare_antisym ey ex);
    destruct (ey ?= ex)%Z; simpl; try reflexivity;
    rewrite (Pos.compare_cont_antisym mx my Eq); simpl;
    try rewrite CompOpp_involutive; reflexivity.
Qed.

Lemma SFcompare_refl (x : spec_float) :
  x <> S754_nan -> SFcompare x x = Some Eq.
Proof.
  destruct x as [[]|[]| |[] m e]; try reflexivity; try congruence; intros _;
    simpl; rewrite Z.compare_refl, Pos.compare_cont_refl; reflexivity.
Qed.

(** *** From the specification to the primitive floats *)

(** Case analysis on the class and the sign of a float. *)
Ltac spec_cases x :=
  destruct (Prim2SF x) as [[]|[]| |[] ? ?]; cbn in *; try congruence.

Lemma float_of_nat_0 : Prim2SF (float_of_nat 0) = S754_zero false.
Proof. reflexivity. Qed.

Lemma float_of_nat_finite (k : nat) :
  (0 < k)%nat -> Z.of_nat k < 2 ^ 63 ->
  exists m e, Prim2SF (float_of_nat k) = S754_finite false m e.
Proof.
  intros Hk Hlt. unfold float_of_nat.
  rewrite FloatAxioms.of_uint63_spec, Uint63.of_Z_spec.
  change Uint63.wB with (2 ^ 63). rewrite Z.mod_small by lia.
  apply binary_normalize_int. split; [lia|].
  eapply Z.lt_trans; [exact Hlt|reflexivity].
Qed.

Lemma float_of_nat_nonneg (i : nat) :
  Z.of_nat i < 2 ^ 63 ->
  Prim2SF (float_of_nat i) = S754_zero false \/
  exists m e, Prim2SF (float_of_nat i) = S754_finite false m e.
Proof.
  intros Hlt. destruct i as [|i]; [left; apply float_of_nat_0|].
  right. apply float_of_nat_finite; [lia|assumption].
Qed.

Lemma eqb_zero (d : float) : (d == 0)%float -> zero_float d.
Proof.
  unfold zero_float. rewrite FloatAxioms.eqb_spec.
  change (Prim2SF 0) with (S754_zero false).
  destruct (Prim2SF d) as [[]|[]| |[] m e]; cbn; congruence.
Qed.

Lemma zero_eqb (x y : float) : zero_float x -> zero_float y -> (x == y)%float.
Proof.
  unfold zero_float. rewrite FloatAxioms.eqb_spec.
  destruct (Prim2SF x) as [[]|[]| |[] m e], (Prim2SF y) as [[]|[]| |[] m' e'];
    cbn; congruence.
Qed.

Lemma zero_float_0 : zero_float 0.
Proof. reflexivity. Qed.

Lemma div_zero (x : float) (k : nat) :
  zero_float x -> (0 < k)%nat -> Z.of_nat k < 2 ^ 63 ->
  zero_float (x / float_of_nat k).
Proof.
  unfold zero_float. intros Hx Hk Hlt.
  destruct (float_of_nat_finite k Hk Hlt) as (m & e & Hf).
  rewrite FloatAxioms.div_spec, Hf.
  destruct (Prim2SF x) as [[]|[]| |[] mx ex]; cbn in *; congruence.
Qed.

Lemma mul_zero (i : nat) (x : float) :
  zero_float x -> Z.of_nat i < 2 ^ 63 -> zero_float (float_of_nat i * x).
Proof.
  unfold zero_float. intros Hx Hlt. rewrite FloatAxioms.mul_spec.
  destruct (float_of_nat_nonneg i Hlt) as [Hf|(m & e & Hf)]; rewrite Hf;
    destruct (Prim2SF x) as [[]|[]| |[] mx ex]; cbn in *; congruence.
Qed.

Lemma pymin_cases (a b : float) : pymin a b = a \/ pymin a b = b.
Proof. unfold pymin. destruct (b <? a)%float; auto. Qed.

Lemma ltb_0_positive (d : float) : (0 <? d)%float = true -> positive_float d.
Proof.
  unfold positive_float. rewrite FloatAxioms.ltb_spec.
  change (Prim2SF 0) with (S754_zero false).
  destruct (Prim2SF d) as [[]|[]| |[] m e]; cbn; congruence.
Qed.

Lemma div_nonneg (d : float) (k : nat) :
  positive_float d -> (0 < k)%nat -> Z.of_nat k < 2 ^ 63 ->
  nonneg (d / float_of_nat k).
Proof.
  unfold positive_float, nonneg. intros Hd Hk Hlt.
  destruct (float_of_nat_finite k Hk Hlt) as (m & e & Hf).
  rewrite FloatAxioms.div_spec, Hf. by apply SFdiv_nonneg.
Qed.

Lemma mul_nonneg (i : nat) (x : float) :
  nonneg x -> (0 < i)%nat -> Z.of_nat i < 2 ^ 63 ->
  nonneg (float_of_nat i * x).
Proof.
  unfold nonneg. intros Hx Hi Hlt.
  destruct (float_of_nat_finite i Hi Hlt) as (m & e & Hf).
  rewrite FloatAxioms.mul_spec, Hf. by apply SFmul_nonneg.
Qed.

Lemma SF_nonneg_not_nan (x : spec_float) : SF_nonneg x = true -> x <> S754_nan.
Proof. by destruct x. Qed.

Lemma SF_positive_nonneg (x : spec_float) :
  SF_positive x = true -> SF_nonneg x = true.
Proof. by destruct x as [[]|[]| |[] m e]. Qed.

Lemma SFcompare_is_Some (x y : spec_float) :
  x <> S754_nan -> y <> S754_nan -> is_Some (SFcompare x y).
Proof.
  destruct x as [[]|[]| |[] mx ex]; try done;
    destruct y as [[]|[]| |[] my ey]; done.
Qed.

(** [min(a, d)] against [d], for comparable [a] and [d]: it never exceeds
    [d]; it is [d] when [d <= a] and lies strictly below otherwise. *)
Lemma pymin_le (a d : float) :
  nonneg a -> positive_float d -> (pymin a d <=? d)%float = true.
Proof.
  unfold nonneg, positive_float, pymin. intros Ha Hd.
  apply SF_positive_nonneg, SF_nonneg_not_nan in Hd.
  apply SF_nonneg_not_nan in Ha.
  destruct (d <? a)%float eqn:E; rewrite FloatAxioms.leb_spec; unfold SFleb.
  - by rewrite SFcompare_refl.
  - rewrite FloatAxioms.ltb_spec in E. unfold SFltb in E.
    rewrite (SFcompare_antisym (Prim2SF d) (Prim2SF a)).
    destruct (SFcompare_is_Some _ _ Hd Ha) as [c Hc]. rewrite Hc in *.
    by destruct c.
Qed.

Lemma pymin_reaches (a d : float) :
  nonneg a -> positive_float d ->
  if (d <=? a)%float then (pymin a d == d)%float
  else (pymin a d <? d)%float = true.
Proof.
  unfold nonneg, positive_float, pymin. intros Ha Hd.
  apply SF_positive_nonneg, SF_nonneg_not_nan in Hd.
  pose proof (SFcompare_refl _ Hd) as Hrefl.
  apply SF_nonneg_not_nan in Ha.
  rewrite FloatAxioms.leb_spec, (FloatAxioms.ltb_spec d a).
  unfold SFleb, SFltb.
  pose proof (SFcompare_antisym (Prim2SF d) (Prim2SF a)) as Hanti.
  destruct (SFcompare_is_Some _ _ Hd Ha) as [c Hc]. rewrite Hc in *.
  simpl in Hanti.
  destruct c; rewrite ?FloatAxioms.eqb_spec, ?FloatAxioms.ltb_spec;
    unfold SFeqb, SFltb; by rewrite ?Hanti, ?Hrefl.
Qed.

Lemma is_finite_spec (x : float) :
  is_finite x = true ->
  exists s, Prim2SF x = S754_zero s \/ exists m e, Prim2SF x = S754_finite s m e.
Proof.
  unfold is_finite, is_nan, is_infinity.
  rewrite negb_true_iff, orb_false_iff, negb_false_iff.
  rewrite !FloatAxioms.eqb_spec, FloatAxioms.abs_spec.
  change (Prim2SF infinity) with (S754_infinity false).
  destruct (Prim2SF x) as [s|s| |s m e]; cbn; intros [H1 H2];
    try discriminate; eauto.
Qed.

Lemma finite_mul_0 (x : float) :
  is_finite x = true -> (float_of_nat 0 * x == 0)%float.
Proof.
  intros Hx. apply zero_eqb; [|apply zero_float_0].
  unfold zero_float. rewrite FloatAxioms.mul_spec, float_of_nat_0.
  destruct (is_finite_spec x Hx) as [s [->|(m & e & ->)]]; reflexivity.
Qed.

End Binary64.

Create HintDb binary64.
#[export] Hint Resolve zero_float_0 zero_eqb ltb_0_positive : binary64.

(** *** Exact operations

    Rounding changes nothing on a number that a float holds; so dividing
    by 1 and multiplying by 1 are exact, for every operand. *)

Section Binary64Exact.
Local Open Scope Z_scope.

Lemma shr_1_even (m : positive) :
  shr_1 {| shr_m := Zpos m * 2; shr_r := false; shr_s := false |} =
  {| shr_m := Zpos m; shr_r := false; shr_s := false |}.
Proof. replace (Zpos m * 2) with (Zpos m~0) by lia. reflexivity. Qed.

Lemma pos_shift (m n : positive) : Zpos m * 2 ^ Zpos n = Zpos (m * 2 ^ n).
Proof. by rewrite Pos2Z.inj_mul, Pos2Z.inj_pow. Qed.

Lemma shr_iter_exact (n m : positive) (x : Z) :
  x = Zpos m * 2 ^ Zpos n ->
  SpecFloat.iter_pos shr_1 n {| shr_m := x; shr_r := false; shr_s := false |} =
  {| shr_m := Zpos m; shr_r := false; shr_s := false |}.
Proof.
  revert m x. induction n as [n IH|n IH|]; intros m x ->; cbn [SpecFloat.iter_pos].
  - rewrite (Pos2Z.inj_xI n).
    replace (2 * Zpos n + 1) with (Zpos n + Zpos n + 1) by lia.
    rewrite !Z.pow_add_r by lia. change (2 ^ 1) with 2.
    rewrite !Z.mul_assoc, !pos_shift, shr_1_even.
    rewrite (IH (m * 2 ^ n)%positive) by (by rewrite pos_shift).
    apply IH. by rewrite pos_shift.
  - rewrite (Pos2Z.inj_xO n).
    replace (2 * Zpos n) with (Zpos n + Zpos n) by lia.
    rewrite !Z.pow_add_r by lia.
    rewrite !Z.mul_assoc, !pos_shift.
    rewrite (IH (m * 2 ^ n)%positive) by (by rewrite pos_shift).
    apply IH. by rewrite pos_shift.
  - change (2 ^ 1) with 2. apply shr_1_even.
Qed.

Lemma Zdigits2_shift (m : positive) (k : Z) :
  0 <= k -> Zdigits2 (Zpos m * 2 ^ k) = Zdigits2 (Zpos m) + k.
Proof.
  intros Hk. pose proof (Zdigits2_bounds (Zpos m) ltac:(lia)) as [Hlo Hhi].
  pose proof (Zdigits2_pos (Zpos m) ltac:(lia)) as Hd.
  pose proof (Z.pow_pos_nonneg 2 k ltac:(lia) Hk) as Hp.
  apply Zdigits2_unique; [|lia].
  replace (Zdigits2 (Zpos m) + k - 1) with (Zdigits2 (Zpos m) - 1 + k) by lia.
  rewrite !Z.pow_add_r by lia. nia.
Qed.

(** Rounding is exact on a number that is representable: a mantissa
    [m] of a valid float, written with [k] more binary digits. *)
Lemma binary_round_aux_exact (s : bool) (m : positive) (e k : Z) :
  0 <= k -> bounded prec emax m e = true ->
  binary_round_aux prec emax s (Zpos m * 2 ^ k) (e - k) loc_Exact =
  S754_finite s m e.
Proof.
  intros Hk Hb. unfold bounded in Hb. apply andb_true_iff in Hb as [Hc He].
  unfold canonical_mantissa in Hc. apply Z.eqb_eq in Hc.
  change (Zpos (digits2_pos m)) with (Zdigits2 (Zpos m)) in Hc.
  assert (H1 : shr_fexp prec emax (Zpos m * 2 ^ k) (e - k) loc_Exact =
               ({| shr_m := Zpos m; shr_r := false; shr_s := false |}, e)).
  { unfold shr_fexp. rewrite Zdigits2_shift by assumption.
    replace (Zdigits2 (Zpos m) + k + (e - k)) with (Zdigits2 (Zpos m) + e) by lia.
    rewrite Hc. replace (e - (e - k)) with k by lia.
    unfold shr, shr_record_of_loc. destruct k as [|p|p]; [| |lia].
    - change (2 ^ 0) with 1. rewrite Z.mul_1_r, Z.sub_0_r. reflexivity.
    - rewrite (shr_iter_exact p m) by reflexivity. f_equal. lia. }
  assert (H2 : shr_fexp prec emax (Zpos m) e loc_Exact =
               ({| shr_m := Zpos m; shr_r := false; shr_s := false |}, e)).
  { unfold shr_fexp. rewrite Hc, Z.sub_diag. reflexivity. }
  unfold binary_round_aux. rewrite H1. cbn [loc_of_shr_record shr_m shr_r shr_s round_nearest_even].
  rewrite H2. cbn [shr_m]. by rewrite He.
Qed.

End Binary64Exact.

Section Binary64One.
Local Open Scope Z_scope.

Lemma float_of_nat_1 :
  Prim2SF (float_of_nat 1) = S754_finite false 4503599627370496 (-52).
Proof. reflexivity. Qed.

Lemma float_valid (x : float) (s : bool) (m : positive) (e : Z) :
  Prim2SF x = S754_finite s m e -> bounded prec emax m e = true.
Proof.
  intros Hx. pose proof (FloatAxioms.Prim2SF_valid x) as Hv.
  by rewrite Hx in Hv.
Qed.

(** [1 * x] is [x], for every float. *)
Lemma mul_1_float (x : float) : (float_of_nat 1 * x)%float = x.
Proof.
  apply FloatAxioms.Prim2SF_inj.
  rewrite FloatAxioms.mul_spec, float_of_nat_1.
  destruct (Prim2SF x) as [s|s| |s m e] eqn:Hx; try reflexivity.
  unfold SF64mul, SFmul. cbn [xorb].
  replace (Zpos (4503599627370496 * m)) with (Zpos m * 2 ^ 52) by lia.
  replace (-52 + e) with (e - 52) by lia.
  apply binary_round_aux_exact; [lia|]. by apply (float_valid x s).
Qed.

(** [x / 1] is [x], for every float. *)
Lemma div_1_float (x : float) : (x / float_of_nat 1)%float = x.
Proof.
  apply FloatAxioms.Prim2SF_inj.
  rewrite FloatAxioms.div_spec, float_of_nat_1.
  destruct (Prim2SF x) as [s|s| |s m e] eqn:Hx; try reflexivity;
    try (by destruct s).
  pose proof (float_valid x s m e Hx) as Hb.
  unfold SF64div, SFdiv. rewrite xorb_false_r.
  assert (Hcore : exists k, 0 <= k /\
            SFdiv_core_binary prec emax (Zpos m) e 4503599627370496 (-52) =
            (Zpos m * 2 ^ k, e - k, loc_Exact)).
  { unfold bounded in Hb. apply andb_true_iff in Hb as [Hc He].
    unfold canonical_mantissa in Hc. apply Z.eqb_eq in Hc.
    change (Zpos (digits2_pos m)) with (Zdigits2 (Zpos m)) in Hc.
    unfold SFdiv_core_binary.
    change (Zdigits2 4503599627370496) with 53.
    set (e' := Z.min _ _).
    assert (He' : e' = e \/ e' = e - 1).
    { subst e'. revert Hc. unfold fexp, SpecFloat.emin, prec, emax. lia. }
    exists (e - e'). split; [lia|].
    replace (e - -52 - e') with (e - e' + 52) by lia.
    assert (Hs : Z.shiftl (Zpos m) (e - e' + 52) =
                 Zpos m * 2 ^ (e - e') * 4503599627370496).
    { rewrite Z.shiftl_mul_pow2, Z.pow_add_r by lia. change (2 ^ 52) with 4503599627370496. lia. }
    destruct (e - e' + 52) as [|p|p] eqn:Ep; [lia| |lia].
    rewrite Hs.
    pose proof (Z.div_mul (Zpos m * 2 ^ (e - e')) 4503599627370496 ltac:(lia)) as Hq.
    pose proof (Z.mod_mul (Zpos m * 2 ^ (e - e')) 4503599627370496 ltac:(lia)) as Hr.
    unfold Z.div, Z.modulo in Hq, Hr.
    destruct (Z.div_eucl _ _) as [q r]. subst q r.
    replace (e - (e - e')) with e' by lia. reflexivity. }
  destruct Hcore as (k & Hk & ->).
  by apply binary_round_aux_exact.
Qed.

End Binary64One.

(** *** Error bounds

    Away from the subnormal range and from overflow, a quotient and a
    product are within two units in the last place of the exact result.
    These bounds are what keeps the segments of the pacer together. *)

Section Binary64Bounds.
Local Open Scope Z_scope.

Lemma Zdigits2_ge (m d : Z) : 0 <= d -> 2 ^ d <= m -> d + 1 <= Zdigits2 m.
Proof.
  intros Hd Hm.
  assert (Hpos : 0 < m) by (pose proof (Z.pow_pos_nonneg 2 d); lia).
  pose proof (Zdigits2_bounds m Hpos) as [_ Hhi].
  pose proof (Zdigits2_pos m Hpos).
  destruct (Z.le_gt_cases (d + 1) (Zdigits2 m)) as [|Hlt]; [assumption|exfalso].
  assert (2 ^ Zdigits2 m <= 2 ^ d) by (apply Z.pow_le_mono_r; lia). lia.
Qed.

(** Rounding a mantissa of at least 53 digits, away from the subnormal
    range and from overflow: the result is finite, its exponent is the
    one that leaves 53 digits or the next, and its value is within two
    units of the last kept digit below and one above. *)
Lemma binary_round_aux_bounds (s : bool) (m e : Z) (l : location) :
  2 ^ 52 <= m ->
  emin <= e ->
  e + (Zdigits2 m - prec) + 1 <= emax - prec ->
  let n := Zdigits2 m - prec in
  exists m' e',
    binary_round_aux prec emax s m e l = S754_finite s m' e' /\
    e + n <= e' <= e + n + 1 /\
    m - 2 * 2 ^ n <= Zpos m' * 2 ^ (e' - e) <= m + 2 ^ n.
Proof.
  intros Hm52 Hemin Hemax n.
  assert (Hm : 0 < m) by lia.
  pose proof (Zdigits2_ge m 52 ltac:(lia) Hm52) as HD.
  pose proof (Zdigits2_bounds m Hm) as [HDlo HDhi].
  assert (Hn : 0 <= n) by (unfold n, prec; lia).
  assert (H2n : 0 < 2 ^ n) by (apply Z.pow_pos_nonneg; lia).
  unfold binary_round_aux.
  destruct (shr_fexp_spec m e l ltac:(lia)) as [Hm1 He1].
  destruct (shr_fexp prec emax m e l) as [mrs1 e1]. simpl in Hm1, He1.
  assert (Hn1 : fexp prec emax (Zdigits2 m + e) - e = n).
  { unfold n, fexp, SpecFloat.emin, prec, emax in *. lia. }
  rewrite Hn1 in Hm1, He1. rewrite Z.max_r in Hm1, He1 by lia.
  set (m1 := shr_m mrs1) in *.
  assert (Hdiv1 : 2 ^ n * m1 <= m < 2 ^ n * (m1 + 1)).
  { rewrite Hm1. split; [apply Z.mul_div_le; lia|].
    apply Z.mul_succ_div_gt; lia. }
  assert (Hm1b : 2 ^ 52 <= m1 < 2 ^ 53).
  { assert (E1 : 2 ^ (Zdigits2 m - 1) = 2 ^ n * 2 ^ 52).
    { rewrite <- Z.pow_add_r by lia. f_equal. unfold n, prec. lia. }
    assert (E2 : 2 ^ Zdigits2 m = 2 ^ n * 2 ^ 53).
    { rewrite <- Z.pow_add_r by lia. f_equal. unfold n, prec. lia. }
    rewrite E1 in HDlo. rewrite E2 in HDhi. split; nia. }
  pose proof (round_nearest_even_bounds m1 (loc_of_shr_record mrs1)) as Hrne.
  set (m2 := round_nearest_even m1 (loc_of_shr_record mrs1)) in *.
  assert (Hm2 : 0 < m2) by lia.
  destruct (shr_fexp_spec m2 e1 loc_Exact ltac:(lia)) as [Hm3 He3].
  destruct (shr_fexp prec emax m2 e1 loc_Exact) as [mrs2 e2].
  simpl in Hm3, He3.
  destruct (Z.eq_dec m2 (2 ^ 53)) as [Heq|Hne].
  - assert (HD2 : Zdigits2 m2 = 54).
    { rewrite Heq. reflexivity. }
    assert (Hn2 : fexp prec emax (Zdigits2 m2 + e1) - e1 = 1).
    { rewrite HD2. unfold fexp, SpecFloat.emin, prec, emax in *. lia. }
    rewrite Hn2 in Hm3, He3. change (Z.max 0 1) with 1 in Hm3, He3.
    rewrite Heq in Hm3. change (2 ^ 53 / 2 ^ 1) with (2 ^ 52) in Hm3.
    rewrite Hm3. change (2 ^ 52) with (Zpos 4503599627370496).
    assert (Hle : (e2 <=? emax - prec) = true).
    { apply Z.leb_le. unfold prec, emax in *. lia. }
    rewrite Hle. eexists _, _. split; [reflexivity|].
    split; [lia|].
    replace (e2 - e) with (n + 1) by lia.
    rewrite Z.pow_add_r by lia. change (2 ^ 1) with 2. nia.
  - assert (HD2 : Zdigits2 m2 = 53).
    { apply Zdigits2_unique; [|lia]. change (53 - 1) with 52. lia. }
    assert (Hn2 : fexp prec emax (Zdigits2 m2 + e1) - e1 = 0).
    { rewrite HD2. unfold fexp, SpecFloat.emin, prec, emax in *. lia. }
    rewrite Hn2 in Hm3, He3. change (Z.max 0 0) with 0 in Hm3, He3.
    change (2 ^ 0) with 1 in Hm3. rewrite Z.div_1_r in Hm3.
    rewrite Hm3. destruct m2 as [|p|p]; try lia.
    assert (Hle : (e2 <=? emax - prec) = true).
    { apply Z.leb_le. unfold prec, emax in *. lia. }
    rewrite Hle. eexists _, _. split; [reflexivity|].
    split; [lia|].
    replace (e2 - e) with n by lia. nia.
Qed.

Lemma binary_round_aux_id (s : bool) (m : positive) (e : Z) :
  bounded prec emax m e = true ->
  binary_round_aux prec emax s (Zpos m) e loc_Exact = S754_finite s m e.
Proof.
  intros Hb. pose proof (binary_round_aux_exact s m e 0 ltac:(lia) Hb) as H.
  change (2 ^ 0) with 1 in H. by rewrite Z.mul_1_r, Z.sub_0_r in H.
Qed.

(** [float(j)] is [j] itself below [2^53]: a mantissa of 53 digits and
    an exponent between -52 and 0. *)
Lemma float_of_nat_exact (j : nat) :
  (0 < j)%nat -> Z.of_nat j < 2 ^ 53 ->
  exists m e, Prim2SF (float_of_nat j) = S754_finite false m e /\
              -52 <= e <= 0 /\ Zpos m = Z.of_nat j * 2 ^ (- e) /\
              2 ^ 52 <= Zpos m < 2 ^ 53.
Proof.
  intros Hj Hlt. unfold float_of_nat.
  rewrite FloatAxioms.of_uint63_spec, Uint63.of_Z_spec.
  change Uint63.wB with (2 ^ 63). rewrite Z.mod_small by lia.
  destruct (Z.of_nat j) as [|p|p] eqn:Ep; try lia.
  unfold binary_normalize, binary_round, shl_align.
  pose proof (Zdigits2_bounds (Zpos p) ltac:(lia)) as [HDlo HDhi].
  pose proof (Zdigits2_pos (Zpos p) ltac:(lia)) as HD.
  pose proof (Zdigits2_le (Zpos p) 53 ltac:(lia) ltac:(lia) Hlt) as HD'.
  simpl Zdigits2 in *.
  set (D := Zpos (digits2_pos p)) in *.
  assert (Hf : fexp prec emax (D + 0) = D - prec).
  { unfold fexp, SpecFloat.emin, prec, emax. lia. }
  rewrite Hf.
  destruct (D - prec - 0) as [|d|d] eqn:Ed.
  - assert (HD53 : D = 53) by (unfold prec in Ed; lia).
    rewrite binary_round_aux_id.
    + exists p, 0. split; [reflexivity|]. split; [lia|].
      change (2 ^ (- 0)) with 1. rewrite HD53 in *.
      change (53 - 1) with 52 in HDlo. lia.
    + unfold bounded, canonical_mantissa. fold D. rewrite HD53. reflexivity.
  - unfold prec in Ed. lia.
  - assert (Hd : Zpos d = prec - D) by lia.
    assert (Hval : Zpos (Pos.iter xO p d) = Zpos p * 2 ^ Zpos d)
      by apply iter_xO_pow.
    assert (E1 : 2 ^ (prec - 1) = 2 ^ (D - 1) * 2 ^ Zpos d).
    { rewrite <- Z.pow_add_r by lia. f_equal. lia. }
    assert (E2 : 2 ^ prec = 2 ^ D * 2 ^ Zpos d).
    { rewrite <- Z.pow_add_r by lia. f_equal. lia. }
    assert (H2d : 0 < 2 ^ Zpos d) by (apply Z.pow_pos_nonneg; lia).
    assert (Hrange : 2 ^ 52 <= Zpos (Pos.iter xO p d) < 2 ^ 53).
    { rewrite Hval. change 52 with (prec - 1). change 53 with prec.
      rewrite E1, E2. split; nia. }
    assert (Hdig : Zdigits2 (Zpos (Pos.iter xO p d)) = 53).
    { apply Zdigits2_unique; [|lia]. change (53 - 1) with 52. exact Hrange. }
    rewrite binary_round_aux_id.
    + eexists _, _. split; [reflexivity|]. unfold prec in *.
      split; [lia|]. split; [|exact Hrange].
      rewrite Hval. f_equal. f_equal. lia.
    + unfold bounded, canonical_mantissa.
      change (Zpos (digits2_pos (Pos.iter xO p d)))
        with (Zdigits2 (Zpos (Pos.iter xO p d))).
      rewrite Hdig. apply andb_true_iff. split.
      * apply Z.eqb_eq. unfold fexp, SpecFloat.emin, prec, emax in *. lia.
      * apply Z.leb_le. unfold prec, emax in *. lia.
Qed.

Lemma digits_53 (m : Z) : 2 ^ 52 <= m < 2 ^ 53 -> Zdigits2 m = 53.
Proof. intros H. apply Zdigits2_unique; [|lia]. exact H. Qed.

(** The quotient of two normal floats, away from the ends of the range:
    [x / y] times [y] is within a few units in the last place of [x]. *)
Lemma SFdiv_bounds (mx my : positive) (ex ey : Z) :
  2 ^ 52 <= Zpos mx < 2 ^ 53 ->
  2 ^ 52 <= Zpos my < 2 ^ 53 ->
  emin <= ex - ey - 53 ->
  ex - ey - 51 <= emax - prec ->
  exists mz ez,
    SFdiv prec emax (S754_finite false mx ex) (S754_finite false my ey) =
      S754_finite false mz ez /\
    ex - ey - 53 <= ez <= ex - ey - 51 /\
    Zpos mz * 2 ^ (ez - (ex - ey - 53)) * Zpos my * 2 ^ 52 <=
      Zpos mx * 2 ^ 53 * (2 ^ 52 + 1) /\
    Zpos mx * 2 ^ 53 * ((2 ^ 52 - 1) * (2 ^ 52 - 2)) <=
      Zpos mz * 2 ^ (ez - (ex - ey - 53)) * Zpos my * 2 ^ 104.
Proof.
  intros Hmx Hmy Hlo Hhi. unfold SFdiv. cbn [xorb].
  assert (Hcore : exists l,
            SFdiv_core_binary prec emax (Zpos mx) ex (Zpos my) ey =
            (Zpos mx * 2 ^ 53 / Zpos my, ex - ey - 53, l)).
  { unfold SFdiv_core_binary.
    rewrite (digits_53 (Zpos mx) Hmx), (digits_53 (Zpos my) Hmy).
    assert (He' : Z.min (fexp prec emax (53 + ex - (53 + ey))) (ex - ey) =
                  ex - ey - 53).
    { unfold fexp, SpecFloat.emin, prec, emax in *. lia. }
    rewrite He'.
    replace (ex - ey - (ex - ey - 53)) with 53 by lia.
    rewrite Z.shiftl_mul_pow2 by lia.
    unfold Z.div.
    destruct (Z.div_eucl (Zpos mx * 2 ^ 53) (Zpos my)) as [q r]. eauto. }
  destruct Hcore as [l Hcore]. rewrite Hcore.
  set (q := Zpos mx * 2 ^ 53 / Zpos my).
  assert (Hq : q * Zpos my <= Zpos mx * 2 ^ 53 < (q + 1) * Zpos my).
  { pose proof (Z.mul_div_le (Zpos mx * 2 ^ 53) (Zpos my) ltac:(lia)).
    pose proof (Z.mul_succ_div_gt (Zpos mx * 2 ^ 53) (Zpos my) ltac:(lia)).
    fold q in H, H0. unfold Z.succ in H0. lia. }
  assert (Hq52 : 2 ^ 52 <= q) by nia.
  assert (Hq54 : q < 2 ^ 54) by nia.
  pose proof (Zdigits2_ge q 52 ltac:(lia) Hq52) as HDlo.
  pose proof (Zdigits2_le q 54 ltac:(lia) ltac:(lia) Hq54) as HDhi.
  pose proof (Zdigits2_bounds q ltac:(lia)) as [Hqlo _].
  destruct (binary_round_aux_bounds false q (ex - ey - 53) l
              Hq52 Hlo ltac:(unfold prec, emax in *; lia))
    as (mz & ez & Hr & Hez & Hval).
  exists mz, ez. split; [exact Hr|].
  unfold prec in *. split; [lia|].
  set (X := Zpos mz * 2 ^ (ez - (ex - ey - 53))) in *.
  set (n := Zdigits2 q - 53) in *.
  assert (Hn : 2 ^ n * 2 ^ 52 <= q).
  { rewrite <- Z.pow_add_r by lia. replace (n + 52) with (Zdigits2 q - 1)
      by (unfold n; lia). exact Hqlo. }
  assert (H2n : 0 < 2 ^ n) by (apply Z.pow_pos_nonneg; lia).
  split.
  - assert (X * 2 ^ 52 <= q * (2 ^ 52 + 1)) by nia.
    nia.
  - assert (q * (2 ^ 52 - 2) <= X * 2 ^ 52) by nia.
    assert (Zpos mx * 2 ^ 53 * (2 ^ 52 - 1) <= q * Zpos my * 2 ^ 52) by nia.
    replace (2 ^ 104) with (2 ^ 52 * 2 ^ 52) by reflexivity.
    nia.
Qed.

(** The product of two normal floats, away from the ends of the range,
    is within two units in the last place of the exact product. *)
Lemma SFmul_bounds (mx my : positive) (ex ey : Z) :
  2 ^ 52 <= Zpos mx < 2 ^ 53 ->
  2 ^ 52 <= Zpos my < 2 ^ 53 ->
  emin <= ex + ey ->
  ex + ey + 54 <= emax - prec ->
  exists mz ez,
    SFmul prec emax (S754_finite false mx ex) (S754_finite false my ey) =
      S754_finite false mz ez /\
    ex + ey + 52 <= ez <= ex + ey + 54 /\
    Zpos mz * 2 ^ (ez - (ex + ey)) * 2 ^ 52 <=
      Zpos mx * Zpos my * (2 ^ 52 + 1) /\
    Zpos mx * Zpos my * (2 ^ 52 - 2) <=
      Zpos mz * 2 ^ (ez - (ex + ey)) * 2 ^ 52.
Proof.
  intros Hmx Hmy Hlo Hhi. unfold SFmul. cbn [xorb].
  rewrite Pos2Z.inj_mul.
  set (m := Zpos mx * Zpos my).
  assert (Hm104 : 2 ^ 104 <= m).
  { change (2 ^ 104) with (2 ^ 52 * 2 ^ 52). unfold m. nia. }
  assert (Hm106 : m < 2 ^ 106).
  { change (2 ^ 106) with (2 ^ 53 * 2 ^ 53). unfold m. nia. }
  pose proof (Zdigits2_ge m 104 ltac:(lia) Hm104) as HDlo.
  pose proof (Zdigits2_le m 106 ltac:(lia) ltac:(lia) Hm106) as HDhi.
  pose proof (Zdigits2_bounds m ltac:(lia)) as [Hmlo _].
  destruct (binary_round_aux_bounds false m (ex + ey) loc_Exact
              ltac:(change (2 ^ 52 <= m); lia) Hlo
              ltac:(unfold prec, emax in *; lia))
    as (mz & ez & Hr & Hez & Hval).
  exists mz, ez. split; [exact Hr|].
  unfold prec in *. split; [lia|].
  set (X := Zpos mz * 2 ^ (ez - (ex + ey))) in *.
  set (n := Zdigits2 m - 53) in *.
  assert (Hn : 2 ^ n * 2 ^ 52 <= m).
  { rewrite <- Z.pow_add_r by lia. replace (n + 52) with (Zdigits2 m - 1)
      by (unfold n; lia). exact Hmlo. }
  assert (H2n : 0 < 2 ^ n) by (apply Z.pow_pos_nonneg; lia).
  split; nia.
Qed.

(** Comparing two positive floats by their values, taken at a common
    exponent [e0]. *)
Lemma SFcompare_value (m1 m2 : positive) (e1 e2 e0 : Z) :
  2 ^ 52 <= Zpos m1 < 2 ^ 53 ->
  2 ^ 52 <= Zpos m2 < 2 ^ 53 ->
  e0 <= e1 -> e0 <= e2 ->
  Zpos m1 * 2 ^ (e1 - e0) <= Zpos m2 * 2 ^ (e2 - e0) ->
  SFcompare (S754_finite false m1 e1) (S754_finite false m2 e2) = Some Lt \/
  SFcompare (S754_finite false m1 e1) (S754_finite false m2 e2) = Some Eq.
Proof.
  intros Hm1 Hm2 H1 H2 Hle. cbn [SFcompare].
  destruct (Z.compare_spec e1 e2) as [Heq|Hlt|Hgt].
  - subst e2.
    assert (0 < 2 ^ (e1 - e0)) by (apply Z.pow_pos_nonneg; lia).
    assert (Hm : Zpos m1 <= Zpos m2) by nia.
    change (Pos.compare_cont Eq m1 m2) with (Pos.compare m1 m2).
    destruct (Pos.compare_spec m1 m2) as [->|Hm'|Hm']; [auto|auto|lia].
  - auto.
  - exfalso.
    assert (Hp : 2 ^ (e1 - e0) = 2 ^ (e1 - e2) * 2 ^ (e2 - e0)).
    { rewrite <- Z.pow_add_r by lia. f_equal. lia. }
    assert (H2' : 2 <= 2 ^ (e1 - e2)).
    { change 2 with (2 ^ 1) at 1. apply Z.pow_le_mono_r; lia. }
    assert (0 < 2 ^ (e2 - e0)) by (apply Z.pow_pos_nonneg; lia).
    rewrite Hp in Hle. nia.
Qed.

(** A valid float whose exponent is above the smallest one is normal. *)
Lemma float_normal (x : float) (s : bool) (m : positive) (e : Z) :
  Prim2SF x = S754_finite s m e -> emin < e ->
  2 ^ 52 <= Zpos m < 2 ^ 53 /\ e <= emax - prec.
Proof.
  intros Hx He. pose proof (float_valid x s m e Hx) as Hb.
  unfold bounded in Hb. apply andb_true_iff in Hb as [Hc Hmax].
  unfold canonical_mantissa in Hc. apply Z.eqb_eq in Hc.
  apply Z.leb_le in Hmax.
  change (Zpos (digits2_pos m)) with (Zdigits2 (Zpos m)) in Hc.
  assert (HD : Zdigits2 (Zpos m) = 53).
  { unfold fexp, SpecFloat.emin, prec, emax in *. lia. }
  pose proof (Zdigits2_bounds (Zpos m) ltac:(lia)) as Hb.
  rewrite HD in Hb. change (53 - 1) with 52 in Hb. done.
Qed.

(** The durations between [2^-900] and [2^900] seconds. *)
Lemma duration_range (d : float) :
  (0x1p-900 <=? d)%float = true -> (d <=? 0x1p900)%float = true ->
  exists m e, Prim2SF d = S754_finite false m e /\
              2 ^ 52 <= Zpos m < 2 ^ 53 /\ -952 <= e <= 848.
Proof.
  rewrite !FloatAxioms.leb_spec. unfold SFleb.
  change (Prim2SF 0x1p-900) with (S754_finite false 4503599627370496 (-952)).
  change (Prim2SF 0x1p900) with (S754_finite false 4503599627370496 848).
  destruct (Prim2SF d) as [[]|[]| |[] m e] eqn:Hd; cbn [SFcompare];
    try discriminate.
  intros Hlo Hhi.
  assert (He : -952 <= e <= 848).
  { destruct (Z.compare_spec (-952) e); destruct (Z.compare_spec e 848);
      try discriminate; lia. }
  exists m, e. split; [done|]. split; [|done].
  apply (float_normal d false m e Hd). unfold SpecFloat.emin, prec, emax. lia.
Qed.

End Binary64Bounds.

(** *** The pacer's arithmetic *)

Section PaceBounds.
Local Open Scope Z_scope.

Variable d : float.
Hypothesis Hd_lo : (0x1p-900 <=? d)%float = true.
Hypothesis Hd_hi : (d <=? 0x1p900)%float = true.

(** [d * (1 - 2^-49)], the bound from below for the end of the last
    segment, is a normal float not above [d]. *)
Lemma scaled_duration :
  exists mq eq,
    Prim2SF (d * (1 - 0x1p-49)) = S754_finite false mq eq /\
    2 ^ 52 <= Zpos mq < 2 ^ 53 /\
    (forall md ed, Prim2SF d = S754_finite false md ed ->
       ed - 53 <= eq /\
       Zpos mq * 2 ^ (eq - (ed - 53)) * 2 ^ 52 <=
         Zpos md * (2 ^ 53 - 16) * (2 ^ 52 + 1)).
Proof.
  destruct (duration_range d Hd_lo Hd_hi) as (md & ed & Hd & Hmd & Hed).
  destruct (SFmul_bounds md 9007199254740976 ed (-53) Hmd ltac:(lia)
              ltac:(unfold SpecFloat.emin, prec, emax; lia)
              ltac:(unfold prec, emax; lia))
    as (mq & eq & Hmul & Heq & Hup & _).
  assert (Hq : Prim2SF (d * (1 - 0x1p-49)) = S754_finite false mq eq).
  { rewrite FloatAxioms.mul_spec, Hd.
    change (Prim2SF (1 - 0x1p-49))
      with (S754_finite false 9007199254740976 (-53)).
    exact Hmul. }
  destruct (float_normal _ _ _ _ Hq
              ltac:(unfold SpecFloat.emin, prec, emax; lia)) as [Hmq _].
  exists mq, eq. split; [done|]. split; [done|].
  intros md' ed' Hd'. rewrite Hd in Hd'. injection Hd' as <- <-.
  split; [lia|].
  replace (eq - (ed - 53)) with (eq - (ed + -53)) by lia.
  change (2 ^ 53 - 16) with (Zpos 9007199254740976). exact Hup.
Qed.

Lemma scaled_below : (d * (1 - 0x1p-49) <=? d)%float = true.
Proof.
  destruct (duration_range d Hd_lo Hd_hi) as (md & ed & Hd & Hmd & Hed).
  destruct scaled_duration as (mq & eq & Hq & Hmq & Hval).
  destruct (Hval md ed Hd) as [Heq Hup].
  rewrite FloatAxioms.leb_spec, Hq, Hd. unfold SFleb.
  assert (Hle : Zpos mq * 2 ^ (eq - (ed - 53)) <=
                Zpos md * 2 ^ (ed - (ed - 53))).
  { replace (ed - (ed - 53)) with 53 by lia.
    assert (0 < 2 ^ (eq - (ed - 53))) by (apply Z.pow_pos_nonneg; lia).
    set (X := Zpos mq * 2 ^ (eq - (ed - 53))) in *.
    assert (Zpos md * (2 ^ 53 - 16) * (2 ^ 52 + 1) <= Zpos md * 2 ^ 53 * 2 ^ 52)
      by lia.
    lia. }
  destruct (SFcompare_value mq md eq ed (ed - 53) Hmq Hmd
              ltac:(lia) ltac:(lia) Hle) as [-> | ->]; reflexivity.
Qed.

Variable k : nat.
Hypothesis Hk_pos : (0 < k)%nat.
Hypothesis Hk_max : Z.of_nat k <= 2 ^ 50.

(** The segment duration [d / k] is a normal float, and [k] times it is
    within a few units in the last place of [d]. *)
Lemma segment_duration_bounds :
  exists md ed mk ek ms es,
    Prim2SF d = S754_finite false md ed /\
    Prim2SF (float_of_nat k) = S754_finite false mk ek /\
    Prim2SF (d / float_of_nat k) = S754_finite false ms es /\
    (2 ^ 52 <= Zpos md < 2 ^ 53 /\ -952 <= ed <= 848) /\
    (2 ^ 52 <= Zpos mk < 2 ^ 53 /\ -52 <= ek <= 0 /\
     Zpos mk = Z.of_nat k * 2 ^ (- ek)) /\
    (2 ^ 52 <= Zpos ms < 2 ^ 53 /\ ed - ek - 53 <= es <= ed - ek - 51) /\
    Zpos ms * 2 ^ (es - (ed - ek - 53)) * Zpos mk * 2 ^ 52 <=
      Zpos md * 2 ^ 53 * (2 ^ 52 + 1) /\
    Zpos md * 2 ^ 53 * ((2 ^ 52 - 1) * (2 ^ 52 - 2)) <=
      Zpos ms * 2 ^ (es - (ed - ek - 53)) * Zpos mk * 2 ^ 104.
Proof.
  destruct (duration_range d Hd_lo Hd_hi) as (md & ed & Hd & Hmd & Hed).
  destruct (float_of_nat_exact k Hk_pos ltac:(lia))
    as (mk & ek & Hk & Hek & Hkv & Hmk).
  destruct (SFdiv_bounds md mk ed ek Hmd Hmk
              ltac:(unfold SpecFloat.emin, prec, emax; lia)
              ltac:(unfold prec, emax; lia))
    as (ms & es & Hdiv & Hes & Hup & Hlow).
  assert (Hsd : Prim2SF (d / float_of_nat k) = S754_finite false ms es).
  { by rewrite FloatAxioms.div_spec, Hd, Hk. }
  destruct (float_normal _ _ _ _ Hsd
              ltac:(unfold SpecFloat.emin, prec, emax; lia)) as [Hms _].
  exists md, ed, mk, ek, ms, es. repeat split; try done; lia.
Qed.

(** For [j] below the number of chunks, [j] segment durations do not
    exceed the audio duration: the [min] of the pacer clips nothing
    before the last segment. *)
Lemma product_below (j : nat) :
  (0 < j < k)%nat ->
  (d <? float_of_nat j * (d / float_of_nat k))%float = false /\
  exists m e,
    Prim2SF (float_of_nat j * (d / float_of_nat k)) = S754_finite false m e.
Proof.
  intros Hj.
  destruct segment_duration_bounds
    as (md & ed & mk & ek & ms & es & Hd & Hk & Hsd & [Hmd Hed] &
        (Hmk & Hek & Hkv) & [Hms Hes] & Hup & _).
  destruct (float_of_nat_exact j ltac:(lia) ltac:(lia))
    as (mj & ej & Hjf & Hej & Hjv & Hmj).
  destruct (SFmul_bounds mj ms ej es Hmj Hms
              ltac:(unfold SpecFloat.emin, prec, emax; lia)
              ltac:(unfold prec, emax; lia))
    as (mp & ep & Hmul & Hep & Hpup & _).
  assert (Hp : Prim2SF (float_of_nat j * (d / float_of_nat k)) =
               S754_finite false mp ep).
  { by rewrite FloatAxioms.mul_spec, Hjf, Hsd. }
  destruct (float_normal _ _ _ _ Hp
              ltac:(unfold SpecFloat.emin, prec, emax; lia)) as [Hmp _].
  split; [|eauto].
  rewrite FloatAxioms.ltb_spec, Hd, Hp. unfold SFltb.
  rewrite (SFcompare_antisym (S754_finite false mp ep) (S754_finite false md ed)).
  set (a := es - (ed - ek - 53)) in *.
  set (b := ep - (ej + es)) in *.
  assert (Hval : Zpos mp * 2 ^ (ep - (ed - 53 + ej)) <=
                 Zpos md * 2 ^ (ed - (ed - 53 + ej))).
  { replace (ep - (ed - 53 + ej)) with (a + b + - ek) by (unfold a, b; lia).
    replace (ed - (ed - 53 + ej)) with (53 + - ej) by lia.
    rewrite !Z.pow_add_r by (unfold a, b; lia).
    set (A := 2 ^ a) in *. set (B := 2 ^ b) in *.
    set (Pk := 2 ^ (- ek)) in *. set (Pj := 2 ^ (- ej)) in *.
    assert (HA : 0 < A) by (apply Z.pow_pos_nonneg; unfold a; lia).
    assert (HB : 0 < B) by (apply Z.pow_pos_nonneg; unfold b; lia).
    assert (HPk : 0 < Pk) by (apply Z.pow_pos_nonneg; lia).
    assert (HPj : 0 < Pj) by (apply Z.pow_pos_nonneg; lia).
    set (J := Z.of_nat j) in *. set (K := Z.of_nat k) in *.
    assert (HJK : J + 1 <= K) by (unfold J, K; lia).
    assert (HJ : 0 < J) by (unfold J; lia).
    set (GL := Zpos mp * A * B * Pk). set (GR := Zpos md * 2 ^ 53 * Pj).
    assert (H1 : Zpos mp * B * 2 ^ 52 * (A * Zpos mk * 2 ^ 52) <=
                 Zpos mj * Zpos ms * (2 ^ 52 + 1) * (A * Zpos mk * 2 ^ 52)).
    { apply Z.mul_le_mono_nonneg_r; [lia|exact Hpup]. }
    assert (H2 : Zpos mj * (2 ^ 52 + 1) * (Zpos ms * A * Zpos mk * 2 ^ 52) <=
                 Zpos mj * (2 ^ 52 + 1) * (Zpos md * 2 ^ 53 * (2 ^ 52 + 1))).
    { apply Z.mul_le_mono_nonneg_l; [lia|exact Hup]. }
    assert (H3 : GL * (K * 2 ^ 104) <= GR * (J * ((2 ^ 52 + 1) * (2 ^ 52 + 1)))).
    { unfold GL, GR. rewrite Hkv in H1, H2. rewrite Hjv in H1, H2.
      fold Pk Pj J K in H1, H2. change (2 ^ 104) with (2 ^ 52 * 2 ^ 52). lia. }
    assert (H4 : J * ((2 ^ 52 + 1) * (2 ^ 52 + 1)) <= K * 2 ^ 104) by lia.
    assert (HGR : 0 <= GR) by (unfold GR; lia).
    assert (H5 : GL * (K * 2 ^ 104) <= GR * (K * 2 ^ 104)).
    { etransitivity; [exact H3|]. apply Z.mul_le_mono_nonneg_l; assumption. }
    apply Z.mul_le_mono_pos_r in H5; [|lia].
    unfold GL, GR in H5. lia. }
  destruct (SFcompare_value mp md ep ed (ed - 53 + ej) Hmp Hmd
              ltac:(lia) ltac:(lia) Hval) as [-> | ->]; reflexivity.
Qed.

(** [k] segment durations reach [d * (1 - 2^-49)]. *)
Lemma product_close :
  (d * (1 - 0x1p-49) <=? float_of_nat k * (d / float_of_nat k))%float = true /\
  exists m e,
    Prim2SF (float_of_nat k * (d / float_of_nat k)) = S754_finite false m e.
Proof.
  destruct segment_duration_bounds
    as (md & ed & mk & ek & ms & es & Hd & Hk & Hsd & [Hmd Hed] &
        (Hmk & Hek & Hkv) & [Hms Hes] & _ & Hlow).
  destruct (SFmul_bounds mk ms ek es Hmk Hms
              ltac:(unfold SpecFloat.emin, prec, emax; lia)
              ltac:(unfold prec, emax; lia))
    as (mp & ep & Hmul & Hep & _ & Hplow).
  assert (Hp : Prim2SF (float_of_nat k * (d / float_of_nat k)) =
               S754_finite false mp ep).
  { by rewrite FloatAxioms.mul_spec, Hk, Hsd. }
  destruct (float_normal _ _ _ _ Hp
              ltac:(unfold SpecFloat.emin, prec, emax; lia)) as [Hmp _].
  split; [|eauto].
  destruct scaled_duration as (mq & eq & Hq & Hmq & Hval).
  destruct (Hval md ed Hd) as [Heq Hup].
  rewrite FloatAxioms.leb_spec, Hq, Hp. unfold SFleb.
  set (a := es - (ed - ek - 53)) in *.
  set (b := ep - (ek + es)) in *.
  assert (Hle : Zpos mq * 2 ^ (eq - (ed - 53)) <=
                Zpos mp * 2 ^ (ep - (ed - 53))).
  { replace (ep - (ed - 53)) with (a + b) by (unfold a, b; lia).
    rewrite Z.pow_add_r by (unfold a, b; lia).
    set (A := 2 ^ a) in *. set (B := 2 ^ b) in *.
    set (X := Zpos mq * 2 ^ (eq - (ed - 53))) in *.
    assert (HA : 0 < A) by (apply Z.pow_pos_nonneg; unfold a; lia).
    assert (HB : 0 < B) by (apply Z.pow_pos_nonneg; unfold b; lia).
    assert (H1 : Zpos md * (2 ^ 53 - 16) * (2 ^ 52 + 1) * 2 ^ 104 <=
                 Zpos md * 2 ^ 53 * ((2 ^ 52 - 1) * (2 ^ 52 - 2)) * (2 ^ 52 - 2))
      by lia.
    assert (H2 : Zpos md * 2 ^ 53 * ((2 ^ 52 - 1) * (2 ^ 52 - 2)) * (2 ^ 52 - 2) <=
                 Zpos ms * A * Zpos mk * 2 ^ 104 * (2 ^ 52 - 2)).
    { apply Z.mul_le_mono_nonneg_r; [lia|exact Hlow]. }
    assert (H3 : A * 2 ^ 104 * (Zpos mk * Zpos ms * (2 ^ 52 - 2)) <=
                 A * 2 ^ 104 * (Zpos mp * B * 2 ^ 52)).
    { apply Z.mul_le_mono_nonneg_l; [lia|exact Hplow]. }
    assert (H4 : X * 2 ^ 52 * 2 ^ 104 <= Zpos mp * (A * B) * 2 ^ 52 * 2 ^ 104)
      by lia.
    lia. }
  destruct (SFcompare_value mq mp eq ep (ed - 53) Hmq Hmp
              ltac:(lia) ltac:(unfold a, b in *; lia) Hle) as [-> | ->];
    reflexivity.
Qed.

End PaceBounds.

(** ** Subtitle Pacer *)

(** *** Grouping the words *)

Lemma py_range_2 (n : nat) :
  py_range 0 n 2 = (fun j => 2 * j) <$> seq 0 (chunk_count n).
Proof.
  unfold py_range, chunk_count.
  replace (n - 0 + 2 - 1) with (n + 1) by lia.
  apply list_fmap_ext. intros i j _. lia.
Qed.

Lemma word_groups_lookup (ws : list string) (j : nat) :
  word_groups ws !! j =
  if decide (j < chunk_count (length ws))
  then Some (take 2 (drop (2 * j) ws)) else None.
Proof.
  unfold word_groups. rewrite py_range_2, !list_lookup_fmap.
  case_decide as Hj.
  - rewrite lookup_seq_lt by done. simpl. unfold py_slice.
    repeat f_equal; lia.
  - by rewrite lookup_seq_ge by lia.
Qed.

Lemma length_word_groups (ws : list string) :
  length (word_groups ws) = chunk_count (length ws).
Proof.
  unfold word_groups. by rewrite py_range_2, !length_fmap, length_seq.
Qed.

Lemma chunk_count_SS (n : nat) : chunk_count (S (S n)) = S (chunk_count n).
Proof.
  unfold chunk_count. replace (S (S n) + 1) with (1 * 2 + (n + 1)) by lia.
  by rewrite Nat.div_add_l by lia.
Qed.

Lemma word_groups_cons2 (a b : string) (ws : list string) :
  word_groups (a :: b :: ws) = [a; b] :: word_groups ws.
Proof.
  apply list_eq. intros j. rewrite word_groups_lookup.
  cbn [length]. rewrite chunk_count_SS.
  destruct j as [|j]; [by rewrite decide_True by lia|].
  cbn [lookup list_lookup]. rewrite word_groups_lookup.
  replace (2 * S j) with (S (S (2 * j))) by lia. cbn [drop].
  repeat case_decide; try done; lia.
Qed.

Lemma pair_ind {A} (P : list A -> Prop) :
  P [] -> (forall a, P [a]) -> (forall a b l, P l -> P (a :: b :: l)) ->
  forall l, P l.
Proof.
  intros H0 H1 H2 l. cut (P l /\ forall a, P (a :: l)); [by intros []|].
  induction l as [|b l [IH1 IH2]]; split; auto.
Qed.

Lemma word_groups_concat (ws : list string) : concat (word_groups ws) = ws.
Proof.
  induction ws as [|a|a b ws IH] using pair_ind; [done..|].
  rewrite word_groups_cons2. simpl. by rewrite IH.
Qed.

Lemma word_groups_length_group (ws : list string) (j : nat) (g : list string) :
  word_groups ws !! j = Some g ->
  length g = if decide (2 * j + 2 <= length ws) then 2 else 1.
Proof.
  rewrite word_groups_lookup. case_decide as Hj; [|done].
  intros [= <-]. rewrite length_take, length_drop.
  unfold chunk_count in Hj.
  assert (2 * j + 1 <= length ws).
  { pose proof (Nat.div_mod_eq (length ws + 1) 2).
    pose proof (Nat.mod_upper_bound (length ws + 1) 2). lia. }
  case_decide; lia.
Qed.

(** *** The result of [generate_subtitle_timestamps] *)

Lemma generate_nonempty (script : string) (d : float) :
  Str.split script <> [] ->
  generate_subtitle_timestamps script d =
  ([], Returned
         (imap (fun i group =>
                  {| text := Str.join " " group;
                     start_time :=
                       (float_of_nat i *
                        (d / float_of_nat (chunk_count (length (Str.split script)))))%float;
                     end_time :=
                       pymin (float_of_nat (i + 1) *
                              (d / float_of_nat (chunk_count (length (Str.split script)))))%float
                             d |})
               (word_groups (Str.split script)))).
Proof.
  intros Hne. unfold generate_subtitle_timestamps.
  rewrite length_word_groups. by destruct (Str.split script).
Qed.

Lemma generate_empty (script : string) (d : float) :
  Str.split script = [] ->
  generate_subtitle_timestamps script d =
  ([Print "Error: Input text is empty."], Returned []).
Proof. intros He. unfold generate_subtitle_timestamps. by rewrite He. Qed.

(** The words of a text are no more than its characters. *)
Lemma length_split_from (s cur : string) :
  length (Str.split_from cur s) <=
  String.length s + match cur with "" => 0 | _ => 1 end.
Proof.
  revert cur. induction s as [|c s IH]; intros cur; simpl.
  - destruct cur; simpl; lia.
  - destruct (Str.isspace c).
    + destruct cur; simpl; specialize (IH ""); simpl in IH; lia.
    + specialize (IH (cur +:+ String c "")).
      destruct (cur +:+ String c "") eqn:E; [|destruct cur; lia].
      by destruct cur.
Qed.

Lemma length_split (s : string) : length (Str.split s) <= String.length s.
Proof. pose proof (length_split_from s ""). simpl in *. unfold Str.split. lia. Qed.

Lemma chunk_count_bounds (n : nat) : 0 < n -> 0 < chunk_count n <= n.
Proof.
  intros Hn. unfold chunk_count.
  pose proof (Nat.div_mod_eq (n + 1) 2).
  pose proof (Nat.mod_upper_bound (n + 1) 2). lia.
Qed.

(** *** Timing *)

(** What the hypotheses on a text give for its chunk indices. *)
Lemma chunk_index_bounds (script : string) (i : nat) :
  Str.split script <> [] ->
  (Z.of_nat (String.length script) < 2 ^ 63)%Z ->
  i <= chunk_count (length (Str.split script)) ->
  0 < chunk_count (length (Str.split script)) /\ (Z.of_nat i < 2 ^ 63)%Z.
Proof.
  intros Hne Hlen Hi. pose proof (length_split script).
  destruct (chunk_count_bounds (length (Str.split script))).
  { destruct (Str.split script); [done | simpl; lia]. }
  split; [done|]. eapply Z.le_lt_trans; [|exact Hlen]. lia.
Qed.

(** C1, as it is stated, fails on the code: with five words and an audio
    of 0.9 seconds there are three chunks, [0.9 / 3] is [0.3], and
    [3 * 0.3] is [0.8999999999999999] in binary64, so the last segment
    ends below the audio duration. *)
Lemma pace_exact_cover_counterexample :
  ~ (forall (script : string) (audio_duration : float),
        Str.split script <> [] ->
        (0 <? audio_duration)%float = true ->
        exists segs,
          generate_subtitle_timestamps script audio_duration = ([], Returned segs) /\
          length segs = chunk_count (length (Str.split script)) /\
          exact_cover segs audio_duration).
Proof.
  intros H.
  destruct (H "this is a test message" (9 / 10)%float) as (segs & Hrun & _ & Hcov);
    [done..|].
  vm_compute in Hrun. injection Hrun as <-.
  destruct Hcov as (_ & _ & Hlast).
  specialize (Hlast _ eq_refl). vm_compute in Hlast. discriminate.
Qed.

(** Why the amended statement bounds the duration.  With a subnormal
    duration the segment duration rounds up, and a later segment starts
    beyond the audio duration, where its predecessor was clamped. *)
Example pace_gap_subnormal_duration :
  exists a b,
    generate_subtitle_timestamps "a b c d e f g h i" 0x3p-1074 =
      ([], Returned [a; b;
                     {| text := "e f"; start_time := 0x2p-1074;
                        end_time := 0x3p-1074 |};
                     {| text := "g h"; start_time := 0x3p-1074;
                        end_time := 0x3p-1074 |};
                     {| text := "i"; start_time := 0x4p-1074;
                        end_time := 0x3p-1074 |}]) /\
    (0x3p-1074 =? 0x4p-1074)%float = false.
Proof. do 2 eexists. split; by vm_compute. Qed.

(** With an infinite duration the first start, [0 * infinity], is NaN. *)
Example pace_start_infinite_duration :
  generate_subtitle_timestamps "a b c" infinity =
  ([], Returned [ {| text := "a b"; start_time := nan; end_time := infinity |};
                  {| text := "c"; start_time := infinity;
                     end_time := infinity |} ]) /\
  (nan =? 0)%float = false.
Proof. split; by vm_compute. Qed.

Lemma finite_eqb_refl (x : float) (s : bool) (m : positive) (e : Z) :
  Prim2SF x = S754_finite s m e -> (x == x)%float.
Proof.
  intros Hx. rewrite FloatAxioms.eqb_spec, Hx. unfold SFeqb.
  by rewrite SFcompare_refl.
Qed.

(** C1 (amended). For a text of [n >= 1] words (shorter than [2^50]
    characters) and an audio duration above 0, the pacer returns
    [ceil(n/2)] segments; segment [i] starts at [i * segment_duration]
    and ends at [min((i+1) * segment_duration, audio_duration)], which
    never exceeds the audio duration; the last segment ends at the
    audio duration when [k * segment_duration] reaches it in binary64,
    and strictly below it otherwise.  For an audio duration between
    [2^-900] and [2^900] seconds, moreover, every segment ends exactly
    where the next one starts, the first segment starts at 0, and the
    last segment does not end below [audio_duration * (1 - 2^-49)]. *)
Theorem pace_cover (script : string) (audio_duration : float) :
  Str.split script <> [] ->
  (Z.of_nat (String.length script) < 2 ^ 50)%Z ->
  (0 <? audio_duration)%float = true ->
  let k := chunk_count (length (Str.split script)) in
  let segment_duration := (audio_duration / float_of_nat k)%float in
  exists segs,
    generate_subtitle_timestamps script audio_duration = ([], Returned segs) /\
    length segs = k /\
    (forall i seg, segs !! i = Some seg ->
       start_time seg = (float_of_nat i * segment_duration)%float /\
       end_time seg =
         pymin (float_of_nat (i + 1) * segment_duration)%float audio_duration /\
       (end_time seg <=? audio_duration)%float = true) /\
    (forall seg, last segs = Some seg ->
       if (audio_duration <=? float_of_nat k * segment_duration)%float
       then (end_time seg == audio_duration)%float
       else (end_time seg <? audio_duration)%float = true) /\
    ((0x1p-900 <=? audio_duration)%float = true ->
     (audio_duration <=? 0x1p900)%float = true ->
     (forall i a b, segs !! i = Some a -> segs !! S i = Some b ->
        end_time a = start_time b /\ (end_time a == start_time b)%float) /\
     (forall seg, segs !! 0 = Some seg -> (start_time seg == 0)%float) /\
     (forall seg, last segs = Some seg ->
        (audio_duration * (1 - 0x1p-49) <=? end_time seg)%float = true)).
Proof.
  intros Hne Hlen Hpos k sd.
  eexists. split; [by apply generate_nonempty|]. fold k sd.
  set (f := fun (i : nat) (group : list string) => _).
  assert (Hk : length (imap f (word_groups (Str.split script))) = k).
  { by rewrite length_imap, length_word_groups. }
  assert (Hlen63 : (Z.of_nat (String.length script) < 2 ^ 63)%Z).
  { eapply Z.lt_trans; [exact Hlen|reflexivity]. }
  destruct (chunk_index_bounds script k Hne Hlen63 ltac:(done)) as [Hk0 Hk63].
  assert (Hk50 : (Z.of_nat k <= 2 ^ 50)%Z).
  { pose proof (length_split script).
    destruct (chunk_count_bounds (length (Str.split script))).
    { destruct (Str.split script); [done | simpl; lia]. }
    fold k in H1. lia. }
  assert (Hd : positive_float audio_duration) by auto with binary64.
  assert (Hsd : nonneg sd) by by apply div_nonneg.
  assert (Hprod : forall i, i < k -> nonneg (float_of_nat (i + 1) * sd)).
  { intros i Hi.
    destruct (chunk_index_bounds script (i + 1) Hne Hlen63 ltac:(fold k; lia)).
    apply mul_nonneg; [done | lia | done]. }
  assert (Hlook : forall i seg,
             imap f (word_groups (Str.split script)) !! i = Some seg ->
             i < k /\ exists g, seg = f i g).
  { intros i seg Hi. split.
    - rewrite <- Hk. by eapply lookup_lt_Some.
    - rewrite list_lookup_imap in Hi.
      destruct (word_groups (Str.split script) !! i) as [g|]; [|done].
      injection Hi as <-. eauto. }
  split; [done|]. split; [|split].
  - intros i seg Hi. destruct (Hlook i seg Hi) as [Hik [g ->]].
    split; [done|]. split; [done|]. simpl. apply pymin_le; auto.
  - intros seg Hseg. rewrite last_lookup, Hk in Hseg.
    destruct (Hlook _ _ Hseg) as [Hi [g ->]]. simpl.
    replace (Init.Nat.pred k + 1) with k by lia.
    apply pymin_reaches; [|done].
    replace k with (Init.Nat.pred k + 1) by lia. apply Hprod. lia.
  - intros Hlo Hhi.
    destruct (segment_duration_bounds audio_duration Hlo Hhi k Hk0 Hk50)
      as (md & ed & mk & ek & ms & es & _ & _ & Hsdf & _).
    fold sd in Hsdf.
    split; [|split].
    + intros i a b Ha Hb.
      destruct (Hlook _ _ Ha) as [_ [ga ->]].
      destruct (Hlook _ _ Hb) as [HSi [gb ->]]. simpl.
      destruct (product_below audio_duration Hlo Hhi k Hk0 Hk50 (S i)
                  ltac:(lia)) as [Hbelow (m & e & Hfin)].
      fold sd in Hbelow, Hfin.
      unfold pymin. rewrite Nat.add_1_r, Hbelow. split; [done|].
      by eapply finite_eqb_refl.
    + intros seg Hseg. destruct (Hlook _ _ Hseg) as [_ [g ->]]. simpl.
      apply zero_eqb; [|apply zero_float_0].
      unfold zero_float.
      by rewrite FloatAxioms.mul_spec, float_of_nat_0, Hsdf.
    + intros seg Hseg. rewrite last_lookup, Hk in Hseg.
      destruct (Hlook _ _ Hseg) as [Hi [g ->]]. simpl.
      replace (Init.Nat.pred k + 1) with k by lia.
      destruct (product_close audio_duration Hlo Hhi k Hk0 Hk50) as [Hclose _].
      fold sd in Hclose.
      destruct (pymin_cases (float_of_nat k * sd) audio_duration) as [-> | ->];
        [exact Hclose|].
      by apply scaled_below.
Qed.

Lemma pace_cover_witness :
  let script := "this is a test message" in
  let audio_duration := (9 / 10)%float in
  let k := chunk_count (length (Str.split script)) in
  let segment_duration := (audio_duration / float_of_nat k)%float in
  exists segs,
    generate_subtitle_timestamps script audio_duration = ([], Returned segs) /\
    length segs = k /\
    (forall i seg, segs !! i = Some seg ->
       start_time seg = (float_of_nat i * segment_duration)%float /\
       end_time seg =
         pymin (float_of_nat (i + 1) * segment_duration)%float audio_duration /\
       (end_time seg <=? audio_duration)%float = true) /\
    (forall seg, last segs = Some seg ->
       (end_time seg <? audio_duration)%float = true) /\
    (forall i a b, segs !! i = Some a -> segs !! S i = Some b ->
       end_time a = start_time b /\ (end_time a == start_time b)%float) /\
    (forall seg, segs !! 0 = Some seg -> (start_time seg == 0)%float) /\
    (forall seg, last segs = Some seg ->
       (audio_duration * (1 - 0x1p-49) <=? end_time seg)%float = true).
Proof.
  destruct (pace_cover "this is a test message" (9 / 10)%float)
    as (segs & Hrun & Hlen & Hsegs & Hlast & Hrange);
    [done | by vm_compute | reflexivity |].
  destruct Hrange as (Hcont & Hstart & Hclose); [reflexivity..|].
  exists segs. repeat split; try assumption.
  - by apply Hsegs.
  - by apply (Hsegs i seg).
  - by apply (Hsegs i seg).
  - by apply Hcont with i.
  - by apply Hcont with i.
Defined.

(** C2. For a text with at least one token the pacer groups the tokens,
    in input order, into chunks of exactly two words (the final chunk has
    one word when the count is odd); the text of each segment is its
    chunk joined by single spaces, and the segments come in chunk order.
    In particular "this is a test message" with an audio of 10 seconds
    gives "this is", "a test", "message" over [0, 10/3], [10/3, 20/3],
    [20/3, 10]. *)
Theorem pace_chunks_in_order (script : string) (audio_duration : float) :
  Str.split script <> [] ->
  (exists (groups : list (list string)) (segs : list segment),
      generate_subtitle_timestamps script audio_duration = ([], Returned segs) /\
      concat groups = Str.split script /\
      (forall j g, groups !! j = Some g ->
         length g = if decide (2 * j + 2 <= length (Str.split script)) then 2 else 1) /\
      text <$> segs = Str.join " " <$> groups) /\
  generate_subtitle_timestamps "this is a test message" 10 =
  ([], Returned
         [ {| text := "this is"; start_time := 0;
              end_time := (10 / 3)%float |};
           {| text := "a test"; start_time := (10 / 3)%float;
              end_time := (20 / 3)%float |};
           {| text := "message"; start_time := (20 / 3)%float;
              end_time := 10 |} ]).
Proof.
  intros Hne. split; [|by vm_compute].
  exists (word_groups (Str.split script)). eexists.
  split; [by apply generate_nonempty|].
  split; [apply word_groups_concat|].
  split; [apply word_groups_length_group|].
  rewrite fmap_imap. unfold compose. simpl.
  generalize (word_groups (Str.split script)). intros l.
  apply list_eq. intros i. by rewrite list_lookup_imap, list_lookup_fmap.
Qed.

Lemma pace_chunks_in_order_witness :
  (exists (groups : list (list string)) (segs : list segment),
      generate_subtitle_timestamps "one two three" 10 = ([], Returned segs) /\
      concat groups = Str.split "one two three" /\
      (forall j g, groups !! j = Some g ->
         length g =
         if decide (2 * j + 2 <= length (Str.split "one two three"))
         then 2 else 1) /\
      text <$> segs = Str.join " " <$> groups) /\
  generate_subtitle_timestamps "this is a test message" 10 =
  ([], Returned
         [ {| text := "this is"; start_time := 0;
              end_time := (10 / 3)%float |};
           {| text := "a test"; start_time := (10 / 3)%float;
              end_time := (20 / 3)%float |};
           {| text := "message"; start_time := (20 / 3)%float;
              end_time := 10 |} ]).
Proof. apply (pace_chunks_in_order "one two three" 10). done. Defined.

(** C3, as it is stated, fails on the code: on the empty text the pacer
    returns normally. *)
Lemma pace_empty_counterexample :
  ~ (forall (script : string) (audio_duration : float),
        Str.split script = [] ->
        failed (generate_subtitle_timestamps script audio_duration)).
Proof. intros H. exact (H "" 10%float eq_refl). Qed.

(** C3 (amended). For a text without tokens the pacer prints
    "Error: Input text is empty." and returns the empty sequence of
    segments as its normal result; it neither raises nor exits. *)
Theorem pace_empty_returns_nothing (script : string) (audio_duration : float) :
  Str.split script = [] ->
  generate_subtitle_timestamps script audio_duration =
    ([Print "Error: Input text is empty."], Returned []) /\
  ~ failed (generate_subtitle_timestamps script audio_duration).
Proof.
  intros Hempty. rewrite (generate_empty _ _ Hempty). split; [done|].
  by intros [].
Qed.

Lemma pace_empty_returns_nothing_witness :
  generate_subtitle_timestamps "" 10 =
    ([Print "Error: Input text is empty."], Returned []) /\
  ~ failed (generate_subtitle_timestamps "" 10).
Proof. apply (pace_empty_returns_nothing "" 10%float). reflexivity. Defined.

(** C8. For a text with at least one word and an audio duration equal
    to 0, the pacer returns normally, one segment per chunk, and every
    segment has [start_time == end_time == 0]. *)
Theorem pace_zero_duration (script : string) (audio_duration : float) :
  Str.split script <> [] ->
  (Z.of_nat (String.length script) < 2 ^ 63)%Z ->
  (audio_duration == 0)%float ->
  exists segs,
    generate_subtitle_timestamps script audio_duration = ([], Returned segs) /\
    length segs = chunk_count (length (Str.split script)) /\
    Forall (fun seg => (start_time seg == 0)%float /\
                       (end_time seg == 0)%float /\
                       (start_time seg == end_time seg)%float) segs.
Proof.
  intros Hne Hlen Hd.
  eexists. split; [by apply generate_nonempty|].
  set (k := chunk_count (length (Str.split script))).
  set (f := fun (i : nat) (group : list string) => _).
  assert (Hk : length (imap f (word_groups (Str.split script))) = k).
  { by rewrite length_imap, length_word_groups. }
  split; [done|].
  apply eqb_zero in Hd.
  assert (Hsd : zero_float (audio_duration / float_of_nat k)).
  { destruct (chunk_index_bounds script k Hne Hlen ltac:(done)).
    by apply div_zero. }
  apply Forall_lookup. intros i seg Hi.
  assert (i < k) by (rewrite <- Hk; by eapply lookup_lt_Some).
  rewrite list_lookup_imap in Hi.
  destruct (word_groups (Str.split script) !! i) as [g|]; [|done].
  injection Hi as <-. simpl.
  assert (Hs : zero_float (float_of_nat i * (audio_duration / float_of_nat k))).
  { destruct (chunk_index_bounds script i Hne Hlen ltac:(fold k; lia)).
    by apply mul_zero. }
  assert (He : zero_float
                 (pymin (float_of_nat (i + 1) * (audio_duration / float_of_nat k))
                        audio_duration)).
  { destruct (pymin_cases
                (float_of_nat (i + 1) * (audio_duration / float_of_nat k))
                audio_duration) as [-> | ->]; [|done].
    destruct (chunk_index_bounds script (i + 1) Hne Hlen ltac:(fold k; lia)).
    by apply mul_zero. }
  repeat split; auto with binary64.
Qed.

Lemma pace_zero_duration_witness :
  exists segs,
    generate_subtitle_timestamps "this is a test message" 0 = ([], Returned segs) /\
    length segs = chunk_count (length (Str.split "this is a test message")) /\
    Forall (fun seg => (start_time seg == 0)%float /\
                       (end_time seg == 0)%float /\
                       (start_time seg == end_time seg)%float) segs.
Proof.
  apply (pace_zero_duration "this is a test message" 0);
    [done | by vm_compute | reflexivity].
Defined.

(** ** Background Selector *)

Lemma fnmatch_dot_mp4 (name : string) :
  Glob.fnmatch ".mp4" name = String.eqb ".mp4" name.
Proof. destruct name as [|c1 [|c2 [|c3 [|c4 [|c5 r]]]]]; reflexivity. Qed.

(** The pattern [*.mp4] matches the names that end with [.mp4]. *)
Lemma fnmatch_star_mp4 (name : string) :
  Glob.fnmatch "*.mp4" name = ends_with ".mp4" name.
Proof.
  induction name as [|c name IH].
  - reflexivity.
  - change (Glob.fnmatch "*.mp4" (String c name))
      with (Glob.fnmatch ".mp4" (String c name) || Glob.fnmatch "*.mp4" name).
    by rewrite fnmatch_dot_mp4, IH.
Qed.

Lemma elem_of_glob_mp4 (folder : list string) (name : string) :
  name ∈ Glob.glob folder "*.mp4" <->
  ends_with ".mp4" name = true /\ name ∈ folder.
Proof. unfold Glob.glob. by rewrite list_elem_of_filter, fnmatch_star_mp4. Qed.

Lemma glob_mp4_none (folder : list string) :
  Forall (fun name => ends_with ".mp4" name = false) folder ->
  Glob.glob folder "*.mp4" = [].
Proof.
  intros Hall. apply elem_of_nil_inv. intros name Hin.
  apply elem_of_glob_mp4 in Hin as [Hend Hin].
  rewrite Forall_forall in Hall. specialize (Hall _ Hin). congruence.
Qed.

Section SelectorProperties.

Variable randbelow : nat -> nat.
Hypothesis randbelow_lt : forall n, 0 < n -> randbelow n < n.

Lemma random_choice_member {A} (seq : list A) :
  seq <> [] ->
  exists x, random_choice randbelow seq = ([], Returned x) /\ x ∈ seq.
Proof.
  intros Hne. unfold random_choice.
  destruct (lookup_lt_is_Some_2 seq (randbelow (length seq))) as [x Hx].
  { apply randbelow_lt. destruct seq; [done | simpl; lia]. }
  rewrite Hx. exists x. split; [done|]. by eapply list_elem_of_lookup_2.
Qed.

Lemma pick_nonempty (folder : list string) :
  Glob.glob folder "*.mp4" <> [] ->
  pick_random_video randbelow folder =
  random_choice randbelow (Glob.glob folder "*.mp4").
Proof. unfold pick_random_video. by destruct (Glob.glob folder "*.mp4"). Qed.

Lemma pick_empty (folder : list string) :
  Glob.glob folder "*.mp4" = [] ->
  pick_random_video randbelow folder =
  ([Print "No videos found in background folder!"], Exited 1).
Proof. unfold pick_random_video. by intros ->. Qed.

(** C5. Over a non-empty pool the selector returns a member of the
    pool (over the pool ["a.mp4"] it returns "a.mp4"); over an empty
    pool it fails: it prints "No videos found in background folder!"
    and leaves through [exit(1)]. *)
Theorem select_from_pool (folder : list string) :
  let pool := Glob.glob folder "*.mp4" in
  (pool <> [] ->
   exists v, pick_random_video randbelow folder = ([], Returned v) /\ v ∈ pool) /\
  (pool = ["a.mp4"] ->
   pick_random_video randbelow folder = ([], Returned "a.mp4")) /\
  (pool = [] ->
   pick_random_video randbelow folder =
     ([Print "No videos found in background folder!"], Exited 1) /\
   failed (pick_random_video randbelow folder)).
Proof.
  intros pool. split; [|split].
  - intros Hne. rewrite pick_nonempty by done. by apply random_choice_member.
  - intros Hpool. rewrite pick_nonempty by (fold pool; by rewrite Hpool).
    destruct (random_choice_member pool) as (x & Hx & Hin);
      [by rewrite Hpool|].
    fold pool. rewrite Hx. rewrite Hpool in Hin.
    apply list_elem_of_singleton in Hin. by subst.
  - intros Hpool. rewrite pick_empty by done. done.
Qed.

(** C10. The selector draws from the entries that match [*.mp4] only:
    whatever it returns is an entry of the folder whose name ends with
    ".mp4", and a folder without such an entry is an empty pool, on
    which it fails as when there are no assets. *)
Theorem select_only_mp4 (folder : list string) :
  (forall t v, pick_random_video randbelow folder = (t, Returned v) ->
     ends_with ".mp4" v = true /\ v ∈ folder) /\
  (Forall (fun name => ends_with ".mp4" name = false) folder ->
   pick_random_video randbelow folder =
     ([Print "No videos found in background folder!"], Exited 1) /\
   failed (pick_random_video randbelow folder)).
Proof.
  split.
  - intros t v Hrun. apply elem_of_glob_mp4.
    unfold pick_random_video, random_choice in Hrun.
    destruct (Glob.glob folder "*.mp4") as [|x pool] eqn:E; [done|].
    destruct ((x :: pool) !! randbelow (length (x :: pool))) as [y|] eqn:Hy;
      [|done].
    injection Hrun as _ <-. by eapply list_elem_of_lookup_2.
  - intros Hall. rewrite pick_empty by by apply glob_mp4_none. done.
Qed.

End SelectorProperties.

Lemma select_from_pool_witness :
  let randbelow := fun n => n - 1 in
  let folder := ["a.mp4"; "notes.script"; "b.mp4"] in
  let pool := Glob.glob folder "*.mp4" in
  (pool <> [] ->
   exists v, pick_random_video randbelow folder = ([], Returned v) /\ v ∈ pool) /\
  (pool = ["a.mp4"] ->
   pick_random_video randbelow folder = ([], Returned "a.mp4")) /\
  (pool = [] ->
   pick_random_video randbelow folder =
     ([Print "No videos found in background folder!"], Exited 1) /\
   failed (pick_random_video randbelow folder)).
Proof.
  apply (select_from_pool (fun n => n - 1)). intros n Hn. lia.
Defined.

Lemma select_only_mp4_witness :
  let randbelow := fun n => n - 1 in
  let folder := ["a.mp4"; "notes.script"; "b.mp4"] in
  (forall t v, pick_random_video randbelow folder = (t, Returned v) ->
     ends_with ".mp4" v = true /\ v ∈ folder) /\
  (Forall (fun name => ends_with ".mp4" name = false) folder ->
   pick_random_video randbelow folder =
     ([Print "No videos found in background folder!"], Exited 1) /\
   failed (pick_random_video randbelow folder)).
Proof. apply (select_only_mp4 (fun n => n - 1)). Defined.

(** ** Frame Transformer *)

Section Frames.
Local Open Scope Z_scope.

Lemma slice_bound_range (n i : Z) : 0 <= n -> 0 <= MoviePy.slice_bound n i <= n.
Proof. intros Hn. unfold MoviePy.slice_bound. destruct (i <? 0) eqn:E; lia. Qed.

(** A slice is never longer than the axis it is taken from. *)
Lemma slice_len_range (n i j : Z) : 0 <= n -> 0 <= MoviePy.slice_len n i j <= n.
Proof.
  intros Hn. unfold MoviePy.slice_len.
  pose proof (slice_bound_range n i Hn). pose proof (slice_bound_range n j Hn).
  lia.
Qed.

Lemma crop_axis_range (n centre2 extent : Z) :
  0 <= n -> 0 <= MoviePy.crop_axis n centre2 extent <= n.
Proof.
  intros Hn. unfold MoviePy.crop_axis.
  destruct (centre2 =? 0); simpl; apply slice_len_range; done.
Qed.

(** Cropping [extent] pixels around the centre of an axis that has at
    least that many gives exactly [extent] pixels. *)
Lemma crop_axis_centred (n extent : Z) :
  0 < extent -> extent <= n -> Z.even extent = true ->
  MoviePy.crop_axis n n extent = extent.
Proof.
  intros Hpos Hle Hev. unfold MoviePy.crop_axis.
  rewrite (proj2 (Z.eqb_neq n 0)) by lia.
  rewrite (proj2 (Z.eqb_neq (n + extent) 0)) by lia.
  unfold MoviePy.slice_len, MoviePy.slice_bound, MoviePy.int_of_halves.
  apply Zeven_bool_iff, Zeven_ex_iff in Hev as [e ->].
  rewrite !Z.quot_div_nonneg by lia.
  replace (n + 2 * e) with (n - 2 * e + (2 * e) * 2) by lia.
  rewrite Z.div_add by lia.
  pose proof (Z.div_pos (n - 2 * e) 2 ltac:(lia) ltac:(lia)).
  pose proof (Z.div_le_upper_bound (n - 2 * e) 2 (n - 2 * e)
                ltac:(lia) ltac:(lia)).
  rewrite !(proj2 (Z.ltb_ge _ 0)) by lia.
  lia.
Qed.

Lemma transform_size (video : video_clip) (d : float) :
  video_size (transform video d) =
  (MoviePy.crop_axis (fst (video_size video) * 1920 / snd (video_size video))
                     (fst (video_size video) * 1920 / snd (video_size video)) 1080,
   1920).
Proof. unfold transform. destruct video as [src [w h] dur]. reflexivity. Qed.

(** A source whose width after scaling to height 1920 is at least 1080
    comes out as 1080 x 1920. *)
Lemma transform_wide_source (video : video_clip) (d : float) :
  1080 <= fst (video_size video) * 1920 / snd (video_size video) ->
  video_size (transform video d) = (1080, 1920).
Proof.
  intros Hw. rewrite transform_size. f_equal.
  by apply crop_axis_centred.
Qed.

(** C4 (the code on a narrow source). A source whose width after scaling
    to height 1920 is below 1080 does not come out 1080 wide: the crop
    window exceeds the frame and the result is narrower than 1080. *)
Theorem transform_narrow_source (video : video_clip) (d : float) :
  0 < fst (video_size video) ->
  0 < snd (video_size video) ->
  fst (video_size video) * 1920 / snd (video_size video) < 1080 ->
  fst (video_size (transform video d)) < 1080 /\
  video_size (transform video d) <> (1080, 1920).
Proof.
  intros Hw Hh Hnarrow. rewrite transform_size. simpl fst.
  assert (0 <= fst (video_size video) * 1920 / snd (video_size video)).
  { apply Z.div_pos; lia. }
  pose proof (crop_axis_range
                (fst (video_size video) * 1920 / snd (video_size video))
                (fst (video_size video) * 1920 / snd (video_size video)) 1080
                ltac:(done)).
  split; [lia|]. intros [= Heq]. lia.
Qed.

End Frames.

Lemma transform_narrow_source_witness :
  let video := {| video_source := "screen_recording.mp4";
                  video_size := (1080, 2400)%Z; video_duration := 30 |} in
  video_size (transform video 12) = (108, 1920)%Z /\
  (fst (video_size (transform video 12)) < 1080)%Z /\
  video_size (transform video 12) <> (1080, 1920)%Z.
Proof.
  split; [reflexivity|].
  apply (transform_narrow_source
           {| video_source := "screen_recording.mp4";
              video_size := (1080, 2400)%Z; video_duration := 30 |} 12);
    reflexivity.
Defined.

(** ** Composer *)

Section ComposerProperties.

Variable VideoFileClip : string -> video_clip.
Variable AudioFileClip : string -> audio_clip.


End ComposerProperties.


(** * Further properties of [main.py] *)

(** ** Text Sanitizer, continued *)

Lemma replace_word_clean (w : string) :
  FAMILY_FRIENDLY_REPLACEMENTS !! Str.lower (replace_word w) = None.
Proof.
  destruct (FAMILY_FRIENDLY_REPLACEMENTS !! Str.lower w) as [v|] eqn:E.
  - rewrite (replace_word_matched _ _ E).
    by destruct (lookup_replacement _ _ E).
  - by rewrite (replace_word_unmatched _ E).
Qed.

Lemma filter_text_clean_tokens (x : string) :
  Forall (fun w => FAMILY_FRIENDLY_REPLACEMENTS !! Str.lower w = None)
         (Str.split (filter_text x)).
Proof.
  rewrite split_filter_text. apply Forall_fmap, Forall_forall.
  intros w _. apply replace_word_clean.
Qed.

(** X1. No word of the table survives: after [filter_text], no token of
    the text has a lower-case form that is a key of the replacement
    table. *)
Theorem filter_text_no_table_word (x : string) (w : string) :
  w ∈ Str.split (filter_text x) ->
  FAMILY_FRIENDLY_REPLACEMENTS !! Str.lower w = None /\
  replace_word w = w.
Proof.
  intros Hw. pose proof (filter_text_clean_tokens x) as Hall.
  rewrite Forall_forall in Hall. specialize (Hall _ Hw).
  split; [done|]. by apply replace_word_unmatched.
Qed.

Lemma filter_text_no_table_word_witness :
  FAMILY_FRIENDLY_REPLACEMENTS !! Str.lower "heck" = None /\
  replace_word "heck" = "heck".
Proof.
  apply (filter_text_no_table_word "what the HELL" "heck").
  by vm_compute; repeat constructor.
Defined.

(** X2. Matching ignores case and the replacement does not keep it: a
    token whose lower-case form is a key is replaced, at its position,
    by the table's value for that key. *)
Theorem filter_text_replaces_any_case (x : string) (i : nat) (w v : string) :
  Str.split x !! i = Some w ->
  FAMILY_FRIENDLY_REPLACEMENTS !! Str.lower w = Some v ->
  Str.split (filter_text x) !! i = Some v.
Proof.
  intros Hi Hw. rewrite split_filter_text, list_lookup_fmap, Hi. simpl.
  by rewrite (replace_word_matched _ _ Hw).
Qed.

Lemma filter_text_replaces_any_case_witness :
  Str.split (filter_text "well DaMn it") !! 1 = Some "darn".
Proof.
  apply (filter_text_replaces_any_case "well DaMn it" 1 "DaMn" "darn");
    by vm_compute.
Defined.

(** Reading a token in front of [s] leaves the state "not after a
    space". *)
Lemma single_spaced_from_app (w s : string) (prev : bool) :
  Str.nospace w = true -> w <> "" ->
  single_spaced_from prev (w +:+ s) = single_spaced_from false s.
Proof.
  revert prev. induction w as [|c w IH]; intros prev Hw Hne; [done|].
  simpl in Hw. apply andb_true_iff in Hw as [Hc Hw].
  apply negb_true_iff in Hc. rewrite app_cons. simpl. rewrite Hc.
  destruct w as [|c' w]; [done|]. by apply IH.
Qed.

Lemma single_spaced_join (ws : list string) :
  Forall (fun w => Str.token w = true) ws ->
  single_spaced (Str.join " " ws) = true.
Proof.
  intros Hws.
  assert (Hfrom : ws <> [] -> single_spaced_from true (Str.join " " ws) = true).
  { induction Hws as [|w ws Hw Hws IH]; [done|]. intros _.
    apply token_spec in Hw as [Hne Hsp].
    destruct ws as [|w' ws].
    - simpl. rewrite <- (app_empty_r w). by rewrite single_spaced_from_app.
    - change (Str.join " " (w :: w' :: ws))
        with (w +:+ " " +:+ Str.join " " (w' :: ws)).
      rewrite single_spaced_from_app by done.
      change (" " +:+ Str.join " " (w' :: ws))
        with (String " "%char (Str.join " " (w' :: ws))).
      cbn [single_spaced_from]. change (Str.isspace " "%char) with true.
      cbn. by apply IH. }
  unfold single_spaced. destruct (Str.join " " ws) eqn:E; [done|].
  apply Hfrom. by intros ->.
Qed.

Lemma filter_text_tokens (x : string) :
  Forall (fun w => Str.token w = true) (replace_word <$> Str.split x).
Proof.
  apply Forall_fmap. eapply Forall_impl; [apply split_tokens|].
  intros w Hw. by apply replace_word_token.
Qed.

(** X3. The output is normalised: whatever white space the input has,
    the result has no leading or trailing white space and its words are
    separated by exactly one space character. *)
Theorem filter_text_single_spaced (x : string) :
  single_spaced (filter_text x) = true.
Proof. unfold filter_text. apply single_spaced_join, filter_text_tokens. Qed.

(** X4. The output is empty exactly when the input has no token (it is
    empty or all white space). *)
Theorem filter_text_empty_iff (x : string) :
  filter_text x = "" <-> Str.split x = [].
Proof.
  split.
  - intros He. pose proof (split_filter_text x) as Hs. rewrite He in Hs.
    symmetry in Hs. by apply fmap_nil_inv in Hs.
  - intros He. unfold filter_text. by rewrite He.
Qed.

Lemma filter_text_empty_iff_witness :
  filter_text (String (ascii_of_nat 9) "  ") = "".
Proof.
  apply (filter_text_empty_iff (String (ascii_of_nat 9) "  ")). reflexivity.
Defined.

(** Lower-casing leaves the ASCII characters that are not letters as
    they are, and no key of the table has one. *)
Lemma lower_char_ascii_nonletter (c : ascii) :
  (N_of_ascii c <? 128)%N && negb (is_letter c) = true ->
  Str.lower_char c = c.
Proof. destruct c as [[] [] [] [] [] [] [] []]; by vm_compute. Qed.

Lemma lower_has_ascii_nonletter (w : string) :
  has_ascii_nonletter w = true -> has_ascii_nonletter (Str.lower w) = true.
Proof.
  induction w as [|c w IH]; [done|]. simpl.
  destruct ((N_of_ascii c <? 128)%N && negb (is_letter c)) eqn:Hc.
  - intros _. by rewrite (lower_char_ascii_nonletter c Hc), Hc.
  - simpl. intros Hw. rewrite (IH Hw). apply orb_true_r.
Qed.

Lemma replacement_keys_letters :
  Forall (fun kv => has_ascii_nonletter kv.1 = false) replacement_items.
Proof. repeat constructor. Qed.

Lemma replace_word_ascii_nonletter (w : string) :
  has_ascii_nonletter w = true -> replace_word w = w.
Proof.
  intros Hw. apply replace_word_unmatched.
  destruct (FAMILY_FRIENDLY_REPLACEMENTS !! Str.lower w) as [v|] eqn:E; [|done].
  apply elem_of_list_to_map_2 in E.
  pose proof replacement_keys_letters as Hall.
  rewrite Forall_forall in Hall. specialize (Hall _ E). simpl in Hall.
  apply lower_has_ascii_nonletter in Hw. congruence.
Qed.

(** X5. Only whole words are matched: a token that contains an ASCII
    character other than a letter (a word with a comma, a full stop or
    a digit attached) is passed through unchanged, whatever its other
    characters are. *)
Theorem filter_text_keeps_punctuated (x : string) (i : nat) (w : string) :
  Str.split x !! i = Some w ->
  has_ascii_nonletter w = true ->
  Str.split (filter_text x) !! i = Some w.
Proof.
  intros Hi Hw. rewrite split_filter_text, list_lookup_fmap, Hi. simpl.
  by rewrite replace_word_ascii_nonletter.
Qed.

Lemma filter_text_keeps_punctuated_witness :
  Str.split (filter_text "oh damn, hell") !! 1 = Some "damn,".
Proof.
  apply (filter_text_keeps_punctuated "oh damn, hell" 1 "damn,");
    by vm_compute.
Defined.

(** X6. A text that is already normalised and clean is a fixed point:
    tokens without a table word, joined by single spaces, come back
    unchanged. *)
Theorem filter_text_fixed_point (ws : list string) :
  Forall (fun w => Str.token w = true) ws ->
  Forall (fun w => FAMILY_FRIENDLY_REPLACEMENTS !! Str.lower w = None) ws ->
  filter_text (Str.join " " ws) = Str.join " " ws.
Proof.
  intros Htok Hclean. unfold filter_text. rewrite split_join by done.
  f_equal. rewrite <- (list_fmap_id ws) at 2.
  apply Forall_fmap_ext_1. eapply Forall_impl; [exact Hclean|].
  intros w Hw. by apply replace_word_unmatched.
Qed.

Lemma filter_text_fixed_point_witness :
  filter_text (Str.join " " ["a"; "fine"; "day"]) = Str.join " " ["a"; "fine"; "day"].
Proof.
  apply (filter_text_fixed_point ["a"; "fine"; "day"]);
    repeat constructor.
Defined.

(** ** Reading the input text *)

Lemma split_lstrip (s : string) : Str.split (lstrip s) = Str.split s.
Proof.
  unfold Str.split. induction s as [|c s IH]; [done|]. simpl.
  destruct (Str.isspace c) eqn:Hc; [done|]. simpl. by rewrite Hc.
Qed.

Lemma split_from_rstrip (s cur : string) :
  Str.split_from cur (rstrip s) = Str.split_from cur s.
Proof.
  revert cur. induction s as [|c s IH]; intros cur; [done|]. simpl.
  destruct (rstrip s) as [|c' r] eqn:Er.
  - destruct (Str.isspace c) eqn:Hc.
    + simpl. destruct cur; by rewrite <- IH.
    + simpl. rewrite Hc. by rewrite <- IH.
  - simpl. destruct (Str.isspace c); [destruct cur|]; by rewrite <- IH.
Qed.

Lemma split_strip (s : string) : Str.split (strip s) = Str.split s.
Proof.
  unfold strip, Str.split. rewrite split_from_rstrip. apply split_lstrip.
Qed.

Lemma filter_text_strip (s : string) : filter_text (strip s) = filter_text s.
Proof. unfold filter_text. by rewrite split_strip. Qed.

(** X7. [get_input_text] returns the sanitized content of a text file
    and prints nothing: the [strip()] before [filter_text] changes
    nothing, and the text it returns has no table word left.  On a path
    where nothing is, it prints one error line and ends the program with
    status 1.  Any other failure of [open] or [read] (a directory, a
    file that may not be read, bytes that are not UTF-8) is not caught:
    the exception goes up to the caller and nothing is printed. *)
Theorem get_input_text_sanitized (fs : gmap string file_state)
    (input_file : string) :
  match fs !! input_file with
  | Some (TextFile content) =>
      get_input_text fs input_file = ([], Returned (filter_text content)) /\
      Forall (fun w => FAMILY_FRIENDLY_REPLACEMENTS !! Str.lower w = None)
             (Str.split (filter_text content))
  | Some (Unreadable exc) =>
      exc <> "FileNotFoundError" ->
      get_input_text fs input_file = ([], Raised exc)
  | None =>
      get_input_text fs input_file =
      ([Print ("Error: Input file '" +:+ input_file +:+ "' not found.")],
       Exited 1)
  end.
Proof.
  unfold get_input_text, read_text.
  destruct (fs !! input_file) as [[content|exc]|]; [| |done].
  - cbn. rewrite filter_text_strip. split; [done|].
    apply filter_text_clean_tokens.
  - intros Hexc. apply String.eqb_neq in Hexc. by rewrite Hexc.
Qed.

Lemma get_input_text_sanitized_witness :
  let fs : gmap string file_state :=
    {[ "story.txt" := TextFile "  what the HELL  ";
       "videos" := Unreadable "IsADirectoryError" ]} in
  get_input_text fs "story.txt" = ([], Returned "what the heck") /\
  get_input_text fs "videos" = ([], Raised "IsADirectoryError") /\
  get_input_text fs "nothing.txt" =
    ([Print "Error: Input file 'nothing.txt' not found."], Exited 1).
Proof.
  intros fs.
  pose proof (get_input_text_sanitized fs "story.txt") as H1.
  pose proof (get_input_text_sanitized fs "videos") as H2.
  pose proof (get_input_text_sanitized fs "nothing.txt") as H3.
  replace (fs !! "story.txt") with (Some (TextFile "  what the HELL  ")) in H1
    by reflexivity.
  replace (fs !! "videos") with (Some (Unreadable "IsADirectoryError")) in H2
    by reflexivity.
  replace (fs !! "nothing.txt") with (@None file_state) in H3 by reflexivity.
  split; [exact (proj1 H1)|]. split; [|exact H3].
  apply H2. discriminate.
Defined.

(** ** Configuration *)

Lemma get_config_value_dict (args items : gmap string pyvalue)
    (key : string) (required : bool) :
  get_config_value args (PyDict items) key required =
  if required && is_None (found_value args items key)
  then ([Print (missing_parameter_message key)], Exited 1)
  else ([], Returned (found_value args items key)).
Proof.
  unfold get_config_value, found_value, config_get.
  destruct (is_None (getattr args key)) eqn:E; simpl.
  - by destruct required, (is_None (default PyNone (items !! key))).
  - rewrite E. by destruct required.
Qed.

(** X8. A required parameter is never returned as [None]: when
    [get_config_value] returns with [required=True], it has printed
    nothing, and the value is the one of the command line, or, if that
    one is [None], the entry of the configuration. *)
Theorem get_config_value_never_none (args : gmap string pyvalue)
    (config : pyvalue) (key : string) (t : list event) (v : pyvalue) :
  get_config_value args config key true = (t, Returned v) ->
  t = [] /\ v <> PyNone /\
  (getattr args key = v \/
   getattr args key = PyNone /\
   exists items, config = PyDict items /\ items !! key = Some v).
Proof.
  unfold get_config_value, config_get.
  destruct (getattr args key) eqn:Ea; simpl;
    try (intros [= <- <-]; by auto).
  destruct config as [| | | | | |items]; simpl; try done.
  destruct (items !! key) as [v'|] eqn:Ei; simpl; [|done].
  destruct v'; simpl; try done; intros [= <- <-];
    split; try done; split; try done; right; eauto.
Qed.

Lemma get_config_value_never_none_witness :
  [] = ([] : list event) /\ PyStr "v1" <> PyNone /\
  (getattr ∅ "voice-id" = PyStr "v1" \/
   getattr ∅ "voice-id" = PyNone /\
   exists items, PyDict {["voice-id" := PyStr "v1"]} = PyDict items /\
                 items !! "voice-id" = Some (PyStr "v1")).
Proof.
  apply (get_config_value_never_none
           ∅ (PyDict {["voice-id" := PyStr "v1"]}) "voice-id" [] (PyStr "v1")).
  by vm_compute.
Defined.

(** X9. The command line comes first: a value found in the namespace is
    returned as it is, whatever the configuration holds, even one that
    is not a JSON object. *)
Theorem get_config_value_cli_first (args : gmap string pyvalue)
    (config : pyvalue) (key : string) (required : bool) (v : pyvalue) :
  args !! key = Some v -> v <> PyNone ->
  get_config_value args config key required = ([], Returned v).
Proof.
  intros Hv Hne. unfold get_config_value, getattr. rewrite Hv. simpl.
  destruct v; try done; by destruct required.
Qed.

Lemma get_config_value_cli_first_witness :
  get_config_value {["input" := PyStr "story.txt"]} (PyList []) "input" true =
  ([], Returned (PyStr "story.txt")).
Proof.
  apply (get_config_value_cli_first
           {["input" := PyStr "story.txt"]} (PyList []) "input" true
           (PyStr "story.txt")); done.
Defined.

(** X10. A key that the command line does not give and that the
    configuration lacks, or holds as JSON [null], is missing: a
    required one ends the program with status 1 after one line naming
    the key, an optional one comes back as [None].  A configuration that
    is not a JSON object makes the lookup raise [AttributeError]. *)
Theorem get_config_value_missing (args : gmap string pyvalue)
    (config : pyvalue) (key : string) :
  getattr args key = PyNone ->
  match config with
  | PyDict items =>
      default PyNone (items !! key) = PyNone ->
      get_config_value args config key true =
        ([Print (missing_parameter_message key)], Exited 1) /\
      get_config_value args config key false = ([], Returned PyNone)
  | _ =>
      forall required,
        get_config_value args config key required = ([], Raised "AttributeError")
  end.
Proof.
  intros Ha. destruct config as [| | | | | |items];
    try (intros required; unfold get_config_value; by rewrite Ha).
  intros Hc. rewrite !get_config_value_dict. unfold found_value.
  by rewrite Ha, Hc.
Qed.

Lemma get_config_value_missing_witness :
  get_config_value ∅ (PyDict {["output" := PyNone]}) "output" true =
    ([Print (missing_parameter_message "output")], Exited 1) /\
  get_config_value ∅ (PyDict {["output" := PyNone]}) "output" false =
    ([], Returned PyNone).
Proof.
  apply (get_config_value_missing ∅ (PyDict {["output" := PyNone]}) "output");
    by vm_compute.
Defined.

(** The attributes of the namespace are the five destinations, none of
    which has a dash. *)
Lemma parse_args_lookup (given : gmap string string) (key : string) (v : pyvalue) :
  parse_args given !! key = Some v ->
  exists o, o ∈ option_strings /\ key = dest o /\
            v = from_option PyStr PyNone (given !! o).
Proof.
  intros H. apply elem_of_list_to_map_2, list_elem_of_fmap in H
    as (o & [= -> ->] & Ho). eauto.
Qed.

Lemma parse_args_dash (given : gmap string string) (key : string) :
  has_dash key = true -> parse_args given !! key = None.
Proof.
  intros Hdash. destruct (parse_args given !! key) as [v|] eqn:E; [|done].
  apply parse_args_lookup in E as (o & Ho & -> & _).
  unfold option_strings in Ho.
  repeat (apply elem_of_cons in Ho as [->|Ho]; [by vm_compute in Hdash|]).
  by apply elem_of_nil in Ho.
Qed.

Lemma parse_args_option (given : gmap string string) (o : string) :
  o ∈ option_strings ->
  parse_args given !! dest o = Some (from_option PyStr PyNone (given !! o)).
Proof.
  intros Ho. unfold parse_args. apply elem_of_list_to_map_1.
  - rewrite <- list_fmap_compose. by apply (bool_decide_unpack _).
  - apply list_elem_of_fmap. eauto.
Qed.

(** X11. A key with a dash never reads the command line: [argparse]
    stores [--voice-id] under [voice_id], and [getattr] with the key
    ["voice-id"] finds nothing, so for such a key the result is the one
    of an empty command line.  The keys without a dash, ["input"] and
    ["output"], do read it. *)
Theorem dashed_key_ignores_command_line (given : gmap string string)
    (config : pyvalue) (key : string) (required : bool) :
  has_dash key = true ->
  get_config_value (parse_args given) config key required =
    get_config_value ∅ config key required /\
  getattr (parse_args given) "input" =
    from_option PyStr PyNone (given !! "--input") /\
  getattr (parse_args given) "output" =
    from_option PyStr PyNone (given !! "--output").
Proof.
  intros Hdash. split; [|split].
  - unfold get_config_value, getattr. by rewrite parse_args_dash.
  - unfold getattr. change "input" with (dest "--input").
    rewrite parse_args_option; [done|]. unfold option_strings. set_solver.
  - unfold getattr. change "output" with (dest "--output").
    rewrite parse_args_option; [done|]. unfold option_strings. set_solver.
Qed.

Lemma dashed_key_ignores_command_line_witness :
  let given : gmap string string := {["--voice-id" := "v1"]} in
  get_config_value (parse_args given) (PyDict ∅) "voice-id" true =
    get_config_value ∅ (PyDict ∅) "voice-id" true /\
  getattr (parse_args given) "input" =
    from_option PyStr PyNone (given !! "--input") /\
  getattr (parse_args given) "output" =
    from_option PyStr PyNone (given !! "--output").
Proof.
  apply (dashed_key_ignores_command_line
           {["--voice-id" := "v1"]} (PyDict ∅) "voice-id" true).
  reflexivity.
Defined.



(** ** The program *)

Lemma prints_only_bind {A B} (m : Py A) (k : A -> Py B) :
  prints_only m.1 -> (forall a, prints_only (k a).1) ->
  prints_only (m ≫= k).1.
Proof.
  intros Hm Hk. destruct m as [t [a| |]]; simpl in *; try done.
  specialize (Hk a). unfold mbind, Py_bind. destruct (k a) as [t' r].
  by apply Forall_app.
Qed.

Lemma prints_only_get_config_value (args : gmap string pyvalue)
    (config : pyvalue) (key : string) (required : bool) :
  prints_only (get_config_value args config key required).1.
Proof.
  unfold get_config_value, config_get.
  destruct (is_None (getattr args key)).
  - destruct config; simpl; try by constructor.
    destruct (required && _); simpl; repeat constructor.
  - simpl. destruct (required && _); simpl; repeat constructor.
Qed.

Lemma prints_only_main_parameters (config_file : option pyvalue)
    (given : gmap string string) :
  prints_only (main_parameters config_file given).1.
Proof.
  unfold main_parameters.
  repeat (apply prints_only_bind;
          [apply prints_only_get_config_value | intros ?]).
  constructor.
Qed.

Lemma prints_only_get_input_text (fs : gmap string file_state) (p : string) :
  prints_only (get_input_text fs p).1.
Proof.
  unfold get_input_text, read_text.
  destruct (fs !! p) as [[content|exc]|]; cbn; try by repeat constructor.
  destruct (String.eqb exc "FileNotFoundError"); cbn; repeat constructor.
Qed.

Lemma prints_only_pick (randbelow : nat -> nat) (folder : list string) :
  prints_only (pick_random_video randbelow folder).1.
Proof.
  unfold pick_random_video, random_choice.
  destruct (Glob.glob folder "*.mp4") as [|x l]; [repeat constructor|].
  destruct ((x :: l) !! _); constructor.
Qed.

(** A sequence of calls that ends by [exit] has handed nothing to the
    encoder when the first call hands nothing over and the rest does not
    when it exits. *)
Lemma exit_bind {A B} (m : Py A) (k : A -> Py B) (status : Z) :
  prints_only m.1 ->
  (forall a, (k a).2 = Exited status -> prints_only (k a).1) ->
  (m ≫= k).2 = Exited status -> prints_only (m ≫= k).1.
Proof.
  intros Hm Hk. destruct m as [t [a| |]]; simpl in *.
  - specialize (Hk a). unfold mbind, Py_bind. destruct (k a) as [t' r].
    simpl in *. intros Hr. apply Forall_app. split; [exact Hm|by apply Hk].
  - intros _. exact Hm.
  - discriminate.
Qed.

(** The composer has no [exit]. *)
Lemma create_video_never_exits (VideoFileClip : string -> video_clip)
    (AudioFileClip : string -> audio_clip)
    (audio_file video_file output_file script : string) (status : Z) :
  (create_video_with_subtitles VideoFileClip AudioFileClip
     audio_file video_file output_file script).2 <> Exited status.
Proof.
  unfold create_video_with_subtitles, generate_subtitle_timestamps.
  by destruct (Str.split script).
Qed.

Section MainProperties.

Variable path : Type.
Variable Path : string -> path.
Variable path_str : path -> string.
Variable path_suffix : path -> string.
Variable with_suffix : path -> string -> outcome path.
Variable mkdir_parent : path -> outcome unit.
Variable entries : path -> list string.
Variable child : path -> string -> path.
Variable fs : gmap string file_state.
Variable randbelow : nat -> nat.
Variable VideoFileClip : string -> video_clip.
Variable AudioFileClip : string -> audio_clip.

Abbreviation run_main :=
  (main path Path path_str path_suffix with_suffix mkdir_parent entries child
        fs randbelow VideoFileClip AudioFileClip).


(** X14. Every [exit] comes before the render: when a run of [main]
    ends by [exit] (a required parameter is missing, the input file
    does not exist, the background folder has no video), nothing has
    been handed to the encoder. *)
Theorem main_exit_writes_nothing (config_file : option pyvalue)
    (given : gmap string string) (status : Z) :
  (run_main config_file given).2 = Exited status ->
  prints_only (run_main config_file given).1.
Proof.
  unfold main.
  apply exit_bind; [apply prints_only_main_parameters|].
  intros [[[[api voice] bg] inp] out].
  apply exit_bind; [destruct out; constructor|]. intros output_path.
  apply exit_bind; [destruct (path_suffix output_path); constructor|].
  intros output_path'.
  apply exit_bind; [constructor|]. intros [].
  apply exit_bind; [destruct inp; constructor|]. intros input_path.
  apply exit_bind; [apply prints_only_get_input_text|]. intros script.
  apply exit_bind; [constructor|]. intros audio_path.
  apply exit_bind; [destruct bg; constructor|]. intros folder.
  apply exit_bind; [apply prints_only_pick|]. intros name.
  intros Hexit. by apply create_video_never_exits in Hexit.
Qed.

(** X15. What reaches the composer.  When the five parameters are
    strings, the directory can be made, the input file exists and a
    background is picked, [main] is the call of
    [create_video_with_subtitles] on: the narration read from the output
    path with the suffix [.mp3] (no speech is synthesised, and the API
    key and the voice are not used), the picked entry of the background
    folder, the output path (with [.mp4] when it had no suffix), and the
    sanitized content of the input file. *)
Theorem main_composes (config_file : option pyvalue) (given : gmap string string)
    (api_key voice_id background_folder input_file output_file : string)
    (output_path audio_path : path) (content name : string) :
  main_parameters config_file given =
    ([], Returned (PyStr api_key, PyStr voice_id, PyStr background_folder,
                   PyStr input_file, PyStr output_file)) ->
  match path_suffix (Path output_file) with
  | "" => with_suffix (Path output_file) ".mp4" = Returned output_path
  | _ => output_path = Path output_file
  end ->
  mkdir_parent output_path = Returned tt ->
  fs !! path_str (Path input_file) = Some (TextFile content) ->
  with_suffix output_path ".mp3" = Returned audio_path ->
  pick_random_video randbelow (entries (Path background_folder)) =
    ([], Returned name) ->
  run_main config_file given =
  create_video_with_subtitles VideoFileClip AudioFileClip
    (path_str audio_path)
    (path_str (child (Path background_folder) name))
    (path_str output_path)
    (filter_text content).
Proof.
  intros Hp Hout Hmk Hin Haud Hpick. unfold main. rewrite Hp. cbn.
  assert (Hout' : match path_suffix (Path output_file) with
                  | "" => lift (with_suffix (Path output_file) ".mp4")
                  | _ => mret (Path output_file)
                  end = ([], Returned output_path)).
  { destruct (path_suffix (Path output_file)); [by rewrite Hout|by subst]. }
  rewrite Hout'. cbn. rewrite Hmk. cbn.
  unfold get_input_text, read_text. rewrite Hin. cbn. rewrite Haud. cbn.
  rewrite Hpick. cbn. rewrite filter_text_strip.
  by destruct (create_video_with_subtitles _ _ _ _ _ _).
Qed.

End MainProperties.


Lemma main_exit_writes_nothing_witness :
  let run :=
    main string id id (fun _ => ".mp4") (fun p s => Returned (p +:+ s))
         (fun _ => Returned tt) (fun _ => ["notes.txt"])
         (fun folder name => folder +:+ "/" +:+ name)
         {["story.txt" := TextFile "hello world"]} (fun _ => 0)
         (fun file => VideoClip file (1920, 1080)%Z 30)
         (fun file => AudioClip file 12)
         (Some (PyDict {[ "elevenlabs-api-key" := PyStr "k";
                          "voice-id" := PyStr "v";
                          "background-folder" := PyStr "videos" ]}))
         {[ "--input" := "story.txt"; "--output" := "out.mp4" ]} in
  run = ([Print "No videos found in background folder!"], Exited 1) /\
  prints_only run.1.
Proof.
  intros run. split; [reflexivity|].
  apply (main_exit_writes_nothing
           string id id (fun _ => ".mp4") (fun p s => Returned (p +:+ s))
           (fun _ => Returned tt) (fun _ => ["notes.txt"])
           (fun folder name => folder +:+ "/" +:+ name)
           {["story.txt" := TextFile "hello world"]} (fun _ => 0)
           (fun file => VideoClip file (1920, 1080)%Z 30)
           (fun file => AudioClip file 12)
           (Some (PyDict {[ "elevenlabs-api-key" := PyStr "k";
                            "voice-id" := PyStr "v";
                            "background-folder" := PyStr "videos" ]}))
           {[ "--input" := "story.txt"; "--output" := "out.mp4" ]} 1).
  reflexivity.
Defined.

Lemma main_composes_witness :
  main string id id (fun _ => ".mp4") (fun p s => Returned (p +:+ s))
       (fun _ => Returned tt) (fun _ => ["bg.mp4"])
       (fun folder name => folder +:+ "/" +:+ name)
       {["story.txt" := TextFile "  what the hell "]} (fun _ => 0)
       (fun file => VideoClip file (1920, 1080)%Z 30)
       (fun file => AudioClip file 12)
       (Some (PyDict {[ "elevenlabs-api-key" := PyStr "k";
                        "voice-id" := PyStr "v";
                        "background-folder" := PyStr "videos" ]}))
       {[ "--input" := "story.txt"; "--output" := "out.mp4" ]} =
  create_video_with_subtitles
    (fun file => VideoClip file (1920, 1080)%Z 30)
    (fun file => AudioClip file 12)
    "out.mp4.mp3" "videos/bg.mp4" "out.mp4" (filter_text "  what the hell ").
Proof.
  apply (main_composes
           string id id (fun _ => ".mp4") (fun p s => Returned (p +:+ s))
           (fun _ => Returned tt) (fun _ => ["bg.mp4"])
           (fun folder name => folder +:+ "/" +:+ name)
           {["story.txt" := TextFile "  what the hell "]} (fun _ => 0)
           (fun file => VideoClip file (1920, 1080)%Z 30)
           (fun file => AudioClip file 12)
           (Some (PyDict {[ "elevenlabs-api-key" := PyStr "k";
                            "voice-id" := PyStr "v";
                            "background-folder" := PyStr "videos" ]}))
           {[ "--input" := "story.txt"; "--output" := "out.mp4" ]}
           "k" "v" "videos" "story.txt" "out.mp4"
           "out.mp4" "out.mp4.mp3" "  what the hell " "bg.mp4");
    reflexivity.
Defined.

(** ** Background Selector, continued *)

(** X16. No matching file is left out: for every entry of the folder
    whose name matches [*.mp4] there is a draw of the random source, in
    range, for which that entry is the one picked. *)
Theorem every_mp4_can_be_picked (folder : list string) (v : string) :
  v ∈ Glob.glob folder "*.mp4" ->
  exists randbelow : nat -> nat,
    (forall n, 0 < n -> randbelow n < n) /\
    pick_random_video randbelow folder = ([], Returned v).
Proof.
  intros Hv. pose proof Hv as Hi. apply list_elem_of_lookup_1 in Hi as [i Hi].
  pose proof (lookup_lt_Some _ _ _ Hi) as Hlt.
  exists (fun n => if decide (n = length (Glob.glob folder "*.mp4")) then i else 0).
  split.
  - intros n Hn. case_decide; [by subst | done].
  - unfold pick_random_video, random_choice.
    destruct (Glob.glob folder "*.mp4") as [|x pool] eqn:E; [by inversion Hv|].
    rewrite decide_True by done. by rewrite Hi.
Qed.

Lemma every_mp4_can_be_picked_witness :
  exists randbelow : nat -> nat,
    (forall n, 0 < n -> randbelow n < n) /\
    pick_random_video randbelow ["a.mp4"; "notes.txt"; "b.mp4"] =
      ([], Returned "b.mp4").
Proof.
  apply (every_mp4_can_be_picked ["a.mp4"; "notes.txt"; "b.mp4"] "b.mp4").
  vm_compute. repeat constructor.
Defined.

(** ** Frame Transformer, continued *)

Section FrameProperties.
Local Open Scope Z_scope.

Lemma transform_keeps (video : video_clip) (d : float) :
  video_duration (transform video d) = d /\
  video_source (transform video d) = video_source video.
Proof. unfold transform. by destruct video as [src [w h] dur]. Qed.

(** X17. A source at least as wide as 9:16 fills the canvas: when
    [9 * height <= 16 * width], the transformed clip is exactly
    1080 x 1920, lasts as long as the narration and still is the same
    source. *)
Theorem transform_fills_canvas (video : video_clip) (d : float) :
  0 < snd (video_size video) ->
  9 * snd (video_size video) <= 16 * fst (video_size video) ->
  video_size (transform video d) = (1080, 1920) /\
  video_duration (transform video d) = d /\
  video_source (transform video d) = video_source video.
Proof.
  intros Hh Hwide. split; [|apply transform_keeps].
  apply transform_wide_source. apply Z.div_le_lower_bound; lia.
Qed.

(** The crop of a frame narrower than the window, as the slice computes
    it. *)
Lemma crop_axis_narrow (n : Z) :
  0 <= n < 1080 ->
  MoviePy.crop_axis n n 1080 =
  if n <=? 360 then n else if n =? 1079 then 1079 else (1080 - n) / 2.
Proof.
  intros Hn. unfold MoviePy.crop_axis.
  destruct (Z.eqb_spec n 0) as [->|Hn0]; [reflexivity|].
  rewrite (proj2 (Z.eqb_neq (n + 1080) 0)) by lia.
  unfold MoviePy.slice_len, MoviePy.slice_bound, MoviePy.int_of_halves.
  rewrite (Z.quot_div_nonneg (n + 1080) 2) by lia.
  replace (n - 1080) with (- (1080 - n)) by lia.
  rewrite Z.quot_opp_l by lia. rewrite (Z.quot_div_nonneg (1080 - n) 2) by lia.
  pose proof (Z.div_mod (1080 - n) 2 ltac:(lia)).
  pose proof (Z.mod_pos_bound (1080 - n) 2 ltac:(lia)).
  pose proof (Z.div_mod (n + 1080) 2 ltac:(lia)).
  pose proof (Z.mod_pos_bound (n + 1080) 2 ltac:(lia)).
  destruct (Z.ltb_spec ((n + 1080) / 2) 0); [lia|].
  destruct (Z.ltb_spec (- ((1080 - n) / 2)) 0);
    destruct (Z.leb_spec n 360); destruct (Z.eqb_spec n 1079); lia.
Qed.

(** X18. The output stays within the canvas: for every source whose
    width after scaling to height 1920 is at least 1 (the sources that
    [resize] accepts), the transformed clip is 1920 high and between 1
    and 1080 wide, and not wider than the scaled source. *)
Theorem transform_within_canvas (video : video_clip) (d : float) :
  0 < snd (video_size video) ->
  let W := fst (video_size video) * 1920 / snd (video_size video) in
  1 <= W ->
  snd (video_size (transform video d)) = 1920 /\
  1 <= fst (video_size (transform video d)) <= 1080 /\
  fst (video_size (transform video d)) <= W.
Proof.
  intros Hh W HW. rewrite transform_size. fold W. simpl.
  split; [done|].
  destruct (Z.le_gt_cases 1080 W) as [Hwide|Hnarrow].
  - rewrite crop_axis_centred by done. lia.
  - rewrite crop_axis_narrow by lia.
    pose proof (Z.div_mod (1080 - W) 2 ltac:(lia)).
    pose proof (Z.mod_pos_bound (1080 - W) 2 ltac:(lia)).
    destruct (Z.leb_spec W 360); [lia|].
    destruct (Z.eqb_spec W 1079); lia.
Qed.

(** X19. What a narrow source becomes.  When the source scaled to
    height 1920 is [W] wide with [1 <= W < 1080], the crop window starts
    left of the frame and the slice wraps around: the result keeps the
    whole frame for [W <= 360] and for [W = 1079], and otherwise only a
    strip of [(1080 - W) / 2] columns. *)
Theorem transform_narrow_width (video : video_clip) (d : float) :
  0 < snd (video_size video) ->
  let W := fst (video_size video) * 1920 / snd (video_size video) in
  1 <= W < 1080 ->
  video_size (transform video d) =
  (if W <=? 360 then W else if W =? 1079 then 1079 else (1080 - W) / 2, 1920).
Proof.
  intros Hh W HW. rewrite transform_size. fold W. f_equal.
  apply crop_axis_narrow. lia.
Qed.

End FrameProperties.

Lemma transform_fills_canvas_witness :
  let video := VideoClip "landscape.mp4" (1920, 1080)%Z 30 in
  video_size (transform video 12) = (1080, 1920)%Z /\
  video_duration (transform video 12) = 12%float /\
  video_source (transform video 12) = video_source video.
Proof.
  apply (transform_fills_canvas (VideoClip "landscape.mp4" (1920, 1080)%Z 30) 12);
    by vm_compute.
Defined.

Lemma transform_within_canvas_witness :
  let video := VideoClip "screen_recording.mp4" (1080, 2400)%Z 30 in
  snd (video_size (transform video 12)) = 1920%Z /\
  (1 <= fst (video_size (transform video 12)) <= 1080)%Z /\
  (fst (video_size (transform video 12)) <= 1080 * 1920 / 2400)%Z.
Proof.
  apply (transform_within_canvas
           (VideoClip "screen_recording.mp4" (1080, 2400)%Z 30) 12);
    by vm_compute.
Defined.

Lemma transform_narrow_width_witness :
  let video := VideoClip "screen_recording.mp4" (1080, 2400)%Z 30 in
  video_size (transform video 12) = (108, 1920)%Z.
Proof.
  apply (transform_narrow_width
           (VideoClip "screen_recording.mp4" (1080, 2400)%Z 30) 12);
    by vm_compute.
Defined.

(** ** Subtitle Pacer, continued *)

Lemma word_groups_tokens (ws : list string) (j : nat) (g : list string) :
  Forall (fun w => Str.token w = true) ws ->
  word_groups ws !! j = Some g ->
  Forall (fun w => Str.token w = true) g /\ g <> [].
Proof.
  intros Hws Hg. split.
  - rewrite word_groups_lookup in Hg. case_decide; [|done].
    injection Hg as <-. by apply Forall_take, Forall_drop.
  - apply word_groups_length_group in Hg. intros ->.
    simpl in Hg. case_decide; lia.
Qed.

Lemma join_app_nonempty (sep : string) (l1 l2 : list string) :
  l1 <> [] -> l2 <> [] ->
  Str.join sep (l1 ++ l2) = Str.join sep l1 +:+ sep +:+ Str.join sep l2.
Proof.
  intros H1 H2. induction l1 as [|a l1 IH]; [done|].
  destruct l1 as [|b l1].
  - simpl. by destruct l2.
  - change (Str.join sep ((a :: b :: l1) ++ l2))
      with (a +:+ sep +:+ Str.join sep ((b :: l1) ++ l2)).
    rewrite IH by done.
    change (Str.join sep (a :: b :: l1))
      with (a +:+ sep +:+ Str.join sep (b :: l1)).
    by rewrite !app_assoc_str.
Qed.

(** Joining the joined groups is joining all the words. *)
Lemma join_groups (gs : list (list string)) :
  Forall (fun g => g <> []) gs ->
  Str.join " " (Str.join " " <$> gs) = Str.join " " (concat gs).
Proof.
  induction 1 as [|g gs Hg Hgs IH]; [done|].
  destruct gs as [|g' gs].
  - simpl. by rewrite app_nil_r.
  - change (Str.join " " (Str.join " " <$> g :: g' :: gs))
      with (Str.join " " g +:+ " " +:+ Str.join " " (Str.join " " <$> g' :: gs)).
    rewrite IH. simpl concat.
    rewrite (join_app_nonempty " " g (g' ++ concat gs)).
    + done.
    + done.
    + inversion Hgs as [|? ? Hg' _]; subst. by destruct g'.
Qed.

Lemma segment_texts_groups (script : string) (d : float) :
  Str.split script <> [] ->
  exists segs,
    generate_subtitle_timestamps script d = ([], Returned segs) /\
    length segs = chunk_count (length (Str.split script)) /\
    text <$> segs = Str.join " " <$> word_groups (Str.split script).
Proof.
  intros Hne. eexists. split; [by apply generate_nonempty|].
  split; [by rewrite length_imap, length_word_groups|].
  rewrite fmap_imap. unfold compose. simpl.
  generalize (word_groups (Str.split script)). intros l.
  apply list_eq. intros i. by rewrite list_lookup_imap, list_lookup_fmap.
Qed.

(** X20. Every subtitle shows one or two words, and together the
    subtitles are the script: re-splitting a segment's text gives one or
    two words, and the texts of all segments, joined by spaces, have
    exactly the words of the input, in order. *)
Theorem segment_texts_are_the_script (script : string) (d : float) :
  Str.split script <> [] ->
  exists segs,
    generate_subtitle_timestamps script d = ([], Returned segs) /\
    (forall seg, seg ∈ segs -> 1 <= length (Str.split (text seg)) <= 2) /\
    Str.split (Str.join " " (text <$> segs)) = Str.split script.
Proof.
  intros Hne. destruct (segment_texts_groups script d Hne) as (segs & Hrun & _ & Htxt).
  exists segs. split; [done|].
  pose proof (split_tokens script) as Htok.
  assert (Hgroups : Forall (fun g => Forall (fun w => Str.token w = true) g /\ g <> [])
                           (word_groups (Str.split script))).
  { apply Forall_lookup. intros j g Hg. by eapply word_groups_tokens. }
  split.
  - intros seg Hseg.
    assert (Hin : text seg ∈ Str.join " " <$> word_groups (Str.split script)).
    { rewrite <- Htxt. by apply list_elem_of_fmap_2. }
    apply list_elem_of_fmap in Hin as (g & -> & Hg).
    apply list_elem_of_lookup_1 in Hg as [j Hg].
    destruct (word_groups_tokens _ _ _ Htok Hg) as [Hgt _].
    rewrite split_join by done.
    apply word_groups_length_group in Hg. case_decide; lia.
  - rewrite Htxt, join_groups.
    + rewrite word_groups_concat. by apply split_join.
    + eapply Forall_impl; [exact Hgroups|]. by intros g [_ ?].
Qed.

Lemma segment_texts_are_the_script_witness :
  exists segs,
    generate_subtitle_timestamps "this is  a test message " 10 = ([], Returned segs) /\
    (forall seg, seg ∈ segs -> 1 <= length (Str.split (text seg)) <= 2) /\
    Str.split (Str.join " " (text <$> segs)) = Str.split "this is  a test message ".
Proof.
  apply (segment_texts_are_the_script "this is  a test message " 10). done.
Defined.

(** The times of the segments are a function of the number of chunks. *)
Lemma imap_index_only {A B C} (F : nat -> C) (l1 : list A) (l2 : list B) :
  length l1 = length l2 ->
  imap (fun i _ => F i) l1 = imap (fun i _ => F i) l2.
Proof.
  intros Hlen. apply list_eq. intros i. rewrite !list_lookup_imap.
  destruct (l1 !! i) as [a|] eqn:E1, (l2 !! i) as [b|] eqn:E2; try done.
  - apply lookup_lt_Some in E1. apply lookup_ge_None in E2. lia.
  - apply lookup_lt_Some in E2. apply lookup_ge_None in E1. lia.
Qed.

(** X21. Pacing is uniform: the start and end times depend on the
    number of words only, not on the words.  Two scripts with the same
    number of words get the same times. *)
Theorem timing_depends_on_word_count (a b : string) (d : float) :
  Str.split a <> [] ->
  length (Str.split a) = length (Str.split b) ->
  exists sa sb,
    generate_subtitle_timestamps a d = ([], Returned sa) /\
    generate_subtitle_timestamps b d = ([], Returned sb) /\
    start_time <$> sa = start_time <$> sb /\
    end_time <$> sa = end_time <$> sb.
Proof.
  intros Ha Hlen.
  assert (Hb : Str.split b <> []).
  { intros Hb. rewrite Hb in Hlen. by destruct (Str.split a). }
  do 2 eexists. split; [by apply generate_nonempty|].
  split; [by apply generate_nonempty|].
  rewrite !fmap_imap, Hlen.
  set (sd := (d / float_of_nat (chunk_count (length (Str.split b))))%float).
  split.
  - apply (imap_index_only (fun i => (float_of_nat i * sd)%float)).
    by rewrite !length_word_groups, Hlen.
  - apply (imap_index_only (fun i => pymin (float_of_nat (i + 1) * sd) d)).
    by rewrite !length_word_groups, Hlen.
Qed.

Lemma timing_depends_on_word_count_witness :
  exists sa sb,
    generate_subtitle_timestamps "a b c" 10 = ([], Returned sa) /\
    generate_subtitle_timestamps "antidisestablishmentarianism is long" 10 =
      ([], Returned sb) /\
    start_time <$> sa = start_time <$> sb /\
    end_time <$> sa = end_time <$> sb.
Proof.
  apply (timing_depends_on_word_count
           "a b c" "antidisestablishmentarianism is long" 10); done.
Defined.

Lemma word_groups_fmap (f : string -> string) (ws : list string) :
  word_groups (f <$> ws) = (fun g : list string => f <$> g) <$> word_groups ws.
Proof.
  apply list_eq. intros j.
  rewrite list_lookup_fmap, !word_groups_lookup, length_fmap.
  case_decide; [|done]. simpl. by rewrite fmap_take, fmap_drop.
Qed.

(** X22. Sanitizing and pacing commute: pacing the sanitized text gives
    the segments of the original text, with the same times and with
    each segment's text sanitized; what is printed is the same. *)
Theorem pacing_commutes_with_sanitizing (x : string) (d : float) :
  exists t segs,
    generate_subtitle_timestamps x d = (t, Returned segs) /\
    generate_subtitle_timestamps (filter_text x) d =
      (t, Returned ((fun seg => {| text := filter_text (text seg);
                                   start_time := start_time seg;
                                   end_time := end_time seg |}) <$> segs)).
Proof.
  destruct (Str.split x) as [|w ws] eqn:E.
  - exists [Print "Error: Input text is empty."], [].
    split; [by apply generate_empty|].
    apply generate_empty. by rewrite split_filter_text, E.
  - assert (Hne : Str.split x <> []) by by rewrite E.
    assert (Hne' : Str.split (filter_text x) <> []).
    { rewrite split_filter_text, E. done. }
    do 2 eexists. split; [by apply generate_nonempty|].
    rewrite (generate_nonempty _ _ Hne'). do 2 f_equal.
    rewrite split_filter_text, length_fmap, word_groups_fmap.
    rewrite imap_fmap, fmap_imap. apply imap_ext.
    intros i g Hg. unfold compose. simpl. f_equal.
    destruct (word_groups_tokens _ _ _ (split_tokens x) Hg) as [Hgt _].
    unfold filter_text. by rewrite split_join.
Qed.

(** ** Composer, continued *)

(** X23. One hand-over per call, one layer per chunk: for every script
    and every decoded source that [resize] accepts (a scaled width of at
    least 1), [create_video_with_subtitles] hands exactly one clip to
    the encoder; the clip has the transformed background as its bottom
    layer, then one text overlay per segment of the pacer, in order, and
    carries the narration; it goes to the given file with codec libx264
    at 60 frames per second.  Before the hand-over only the pacer has
    printed.  What the encoder does with the clip, and whether the call
    returns after it, is outside the statement. *)
Theorem render_has_one_layer_per_chunk
    (VideoFileClip : string -> video_clip) (AudioFileClip : string -> audio_clip)
    (audio_file video_file output_file script : string) :
  let source := VideoFileClip video_file in
  (0 < snd (video_size source))%Z ->
  (1 <= fst (video_size source) * 1920 / snd (video_size source))%Z ->
  let audio := AudioFileClip audio_file in
  let video := transform source (audio_duration_of audio) in
  exists pre segs post,
    generate_subtitle_timestamps script (audio_duration_of audio) =
      (pre, Returned segs) /\
    length segs = chunk_count (length (Str.split script)) /\
    (create_video_with_subtitles VideoFileClip AudioFileClip
       audio_file video_file output_file script).1 =
    pre ++
    WriteVideofile
      {| job_clip :=
           {| clips := VideoLayer video ::
                       (TextLayer ∘ subtitle_clip video <$> segs);
              comp_audio := Some audio |};
         job_filename := output_file;
         job_codec := "libx264"; job_fps := 60 |} :: post /\
    prints_only pre /\ prints_only post.
Proof.
  intros source _ _ audio video. unfold create_video_with_subtitles.
  fold source audio video.
  destruct (Str.split script) as [|w ws] eqn:E.
  - exists [Print "Error: Input text is empty."], [],
      [Print ("Output saved: " +:+ output_file)].
    rewrite (generate_empty script _ E).
    repeat split; repeat constructor.
  - assert (Hne : Str.split script <> []) by by rewrite E.
    destruct (segment_texts_groups script (audio_duration_of audio) Hne)
      as (segs & Hrun & Hlen & _).
    exists [], segs, [Print ("Output saved: " +:+ output_file)].
    rewrite Hrun, Hlen, E. repeat split; repeat constructor.
Qed.

Lemma render_has_one_layer_per_chunk_witness :
  let VideoFileClip := fun file =>
    {| video_source := file; video_size := (1920, 1080)%Z; video_duration := 30 |} in
  let AudioFileClip := fun file =>
    {| audio_source := file; audio_duration_of := 12 |} in
  exists pre job post,
    (create_video_with_subtitles VideoFileClip AudioFileClip
       "out.mp3" "bg.mp4" "out.mp4" "one two three").1 =
    pre ++ WriteVideofile job :: post /\
    prints_only pre /\ prints_only post /\
    length (clips (job_clip job)) = 3.
Proof.
  intros VideoFileClip AudioFileClip.
  destruct (render_has_one_layer_per_chunk VideoFileClip AudioFileClip
              "out.mp3" "bg.mp4" "out.mp4" "one two three")
    as (pre & segs & post & _ & Hlen & Hrun & Hpre & Hpost);
    [reflexivity | by vm_compute |].
  eexists pre, _, post. split; [exact Hrun|]. split; [exact Hpre|].
  split; [exact Hpost|].
  cbn [clips job_clip length]. rewrite length_fmap, Hlen. reflexivity.
Defined.

(** ** Speech synthesis *)

Lemma write_chunks_from (written : list Byte.byte) (audio : list (list Byte.byte)) :
  foldl (fun written chunk =>
           match chunk with [] => written | _ => written ++ chunk end)
        written audio = written ++ concat audio.
Proof.
  revert written. induction audio as [|chunk audio IH]; intros written; simpl.
  - by rewrite app_nil_r.
  - rewrite IH. destruct chunk; [done|]. by rewrite <- app_assoc.
Qed.



(** ** Short scripts *)

(** X25. A short script gets one subtitle for the whole narration: with
    one or two words there is a single segment, its text is the words
    joined by a space, and for every duration that is not a NaN its end
    is [audio_duration] itself, the same binary64 value (dividing by
    the chunk count 1 and multiplying by 1 round nothing); its start is
    [0 * audio_duration], which equals zero for every finite
    duration. *)
Theorem short_script_one_segment (script : string) (audio_duration : float) :
  1 <= length (Str.split script) <= 2 ->
  is_nan audio_duration = false ->
  exists seg,
    generate_subtitle_timestamps script audio_duration = ([], Returned [seg]) /\
    text seg = Str.join " " (Str.split script) /\
    end_time seg = audio_duration /\
    (is_finite audio_duration = true -> (start_time seg == 0)%float).
Proof.
  intros Hlen _.
  assert (Hne : Str.split script <> []).
  { intros He. rewrite He in Hlen. simpl in Hlen. lia. }
  rewrite (generate_nonempty script audio_duration Hne).
  assert (Hc : chunk_count (length (Str.split script)) = 1).
  { unfold chunk_count.
    destruct (Str.split script) as [|w1 [|w2 [|w3 ws]]]; simpl in *; try lia;
      reflexivity. }
  rewrite Hc, div_1_float.
  assert (Hg : word_groups (Str.split script) = [Str.split script]).
  { destruct (Str.split script) as [|w1 [|w2 [|w3 ws]]]; simpl in *; try lia;
      reflexivity. }
  rewrite Hg. cbn [imap]. eexists. split; [reflexivity|]. cbn [text start_time end_time].
  split; [reflexivity|]. split.
  - change (0 + 1) with 1. rewrite mul_1_float. unfold pymin.
    by destruct (audio_duration <? audio_duration)%float.
  - apply finite_mul_0.
Qed.

Lemma short_script_one_segment_witness :
  exists seg,
    generate_subtitle_timestamps "hello world" 10 =
      ([], Returned [seg]) /\
    text seg = "hello world" /\
    end_time seg = 10%float /\
    (start_time seg == 0)%float.
Proof.
  destruct (short_script_one_segment "hello world" 10)
    as (seg & H1 & H2 & H3 & H4).
  - vm_compute. lia.
  - reflexivity.
  - exists seg. split; [exact H1|]. split; [exact H2|]. split; [exact H3|].
    apply H4. reflexivity.
Defined.
